(** * Voting: the whitelist-based election contract

    A shallow embedding of the Solidity contract [Voting] (the address
    whitelist revision, pragma ^0.8.19) together with the properties of
    its election life cycle, vote ledger and tally.

    Conventions of the embedding:
    - [uint256] and [address] values are binary naturals ([N]); the
      checked arithmetic of Solidity 0.8 is written out ([checked_add]
      reverts with [Panic 0x11] above [MAX_UINT256]);
    - a [mapping] is a finite map read with the Solidity default
      ([false], [0]) at absent keys;
    - a function body is a computation over the contract storage that
      either finishes with a value, the new storage and the events it
      emitted, or reverts; the storage at the point of the revert is
      kept so that the order of checks and writes can be observed;
    - [transact] is the EVM view of an external call: a revert discards
      every write of the call. *)

From Stdlib Require Import NArith String List Lia.
From stdpp Require Import gmap strings list fin_maps.

Local Open Scope string_scope.
Local Open Scope N_scope.

(** ** Machine integers *)

Definition MAX_UINT256 : N := 2 ^ 256 - 1.
Definition ADDRESS_LIMIT : N := 2 ^ 160.

Abbreviation address := N (only parsing).
Abbreviation uint256 := N (only parsing).

(** [bytes(s).length] *)
Definition bytes_length (s : string) : N := N.of_nat (String.length s).

(** ** Storage layout *)

Record Choice := mkChoice { label : string; votes : uint256 }.

Record Storage := mkStorage {
  owner : address;
  electionActive : bool;
  electionStart : uint256;
  electionEnd : uint256;
  pollTitle : string;
  electionId : uint256;
  choices : list Choice;
  whitelistAddresses : list address;
  isWhitelisted : gmap N bool;
  lastVotedElection : gmap N N;
  lastVotedChoice : gmap N N;
  lastVotedAt : gmap N N
}.

(** Reading a [mapping(address => bool)] and a [mapping(address => uint256)]. *)
Definition read_flag (m : gmap N bool) (a : address) : bool := default false (m !! a).
Definition read_uint (m : gmap N N) (a : address) : uint256 := default 0 (m !! a).

Inductive Event :=
| PollTitleSet (title : string)
| ChoicesSet (count : uint256)
| WhitelistSet (count : uint256)
| WhitelistAdded (voter : address)
| WhitelistRemoved (voter : address)
| ElectionStarted (startTime : uint256)
| ElectionEnded (endTime : uint256)
| VoteCast (voter : address) (choiceIndex : uint256).

(** Field updates. *)
Section Setters.
Variable s : Storage.

Definition set_electionActive (v : bool) : Storage :=
  mkStorage (owner s) v (electionStart s) (electionEnd s) (pollTitle s)
    (electionId s) (choices s) (whitelistAddresses s) (isWhitelisted s)
    (lastVotedElection s) (lastVotedChoice s) (lastVotedAt s).
Definition set_electionStart (v : uint256) : Storage :=
  mkStorage (owner s) (electionActive s) v (electionEnd s) (pollTitle s)
    (electionId s) (choices s) (whitelistAddresses s) (isWhitelisted s)
    (lastVotedElection s) (lastVotedChoice s) (lastVotedAt s).
Definition set_electionEnd (v : uint256) : Storage :=
  mkStorage (owner s) (electionActive s) (electionStart s) v (pollTitle s)
    (electionId s) (choices s) (whitelistAddresses s) (isWhitelisted s)
    (lastVotedElection s) (lastVotedChoice s) (lastVotedAt s).
Definition set_pollTitle (v : string) : Storage :=
  mkStorage (owner s) (electionActive s) (electionStart s) (electionEnd s) v
    (electionId s) (choices s) (whitelistAddresses s) (isWhitelisted s)
    (lastVotedElection s) (lastVotedChoice s) (lastVotedAt s).
Definition set_electionId (v : uint256) : Storage :=
  mkStorage (owner s) (electionActive s) (electionStart s) (electionEnd s)
    (pollTitle s) v (choices s) (whitelistAddresses s) (isWhitelisted s)
    (lastVotedElection s) (lastVotedChoice s) (lastVotedAt s).
Definition set_choices (v : list Choice) : Storage :=
  mkStorage (owner s) (electionActive s) (electionStart s) (electionEnd s)
    (pollTitle s) (electionId s) v (whitelistAddresses s) (isWhitelisted s)
    (lastVotedElection s) (lastVotedChoice s) (lastVotedAt s).
Definition set_whitelistAddresses (v : list address) : Storage :=
  mkStorage (owner s) (electionActive s) (electionStart s) (electionEnd s)
    (pollTitle s) (electionId s) (choices s) v (isWhitelisted s)
    (lastVotedElection s) (lastVotedChoice s) (lastVotedAt s).
Definition set_isWhitelisted (v : gmap N bool) : Storage :=
  mkStorage (owner s) (electionActive s) (electionStart s) (electionEnd s)
    (pollTitle s) (electionId s) (choices s) (whitelistAddresses s) v
    (lastVotedElection s) (lastVotedChoice s) (lastVotedAt s).
Definition set_lastVotedElection (v : gmap N N) : Storage :=
  mkStorage (owner s) (electionActive s) (electionStart s) (electionEnd s)
    (pollTitle s) (electionId s) (choices s) (whitelistAddresses s)
    (isWhitelisted s) v (lastVotedChoice s) (lastVotedAt s).
Definition set_lastVotedChoice (v : gmap N N) : Storage :=
  mkStorage (owner s) (electionActive s) (electionStart s) (electionEnd s)
    (pollTitle s) (electionId s) (choices s) (whitelistAddresses s)
    (isWhitelisted s) (lastVotedElection s) v (lastVotedAt s).
Definition set_lastVotedAt (v : gmap N N) : Storage :=
  mkStorage (owner s) (electionActive s) (electionStart s) (electionEnd s)
    (pollTitle s) (electionId s) (choices s) (whitelistAddresses s)
    (isWhitelisted s) (lastVotedElection s) (lastVotedChoice s) v.
End Setters.

(** ** Execution of a function body *)

Inductive Failure :=
| Error (reason : string)      (* a failed [require] *)
| Panic (code : N).            (* 0x11 arithmetic overflow, 0x32 index out of bounds *)

Inductive Result (A : Type) :=
| Done (a : A) (s : Storage) (events : list Event)
| Revert (f : Failure) (s : Storage).
Arguments Done {A} a s events.
Arguments Revert {A} f s.

Definition M (A : Type) : Type := Storage -> Result A.

Definition ret {A} (a : A) : M A := fun s => Done a s [].

Definition bind {A B} (m : M A) (k : A -> M B) : M B := fun s =>
  match m s with
  | Done a s1 ev1 =>
      match k a s1 with
      | Done b s2 ev2 => Done b s2 (ev1 ++ ev2)
      | Revert f s2 => Revert f s2
      end
  | Revert f s1 => Revert f s1
  end.

Notation "'let!' x ':=' m 'in' k" := (bind m (fun x => k))
  (at level 10, x name, m at level 100, k at level 200).
Notation "m >> k" := (bind m (fun _ => k))
  (at level 90, right associativity).

Definition get : M Storage := fun s => Done s s [].
Definition modify (f : Storage -> Storage) : M unit := fun s => Done tt (f s) [].
Definition emit (e : Event) : M unit := fun s => Done tt s [e].
Definition revert {A} (f : Failure) : M A := fun s => Revert f s.

Definition require (cond : bool) (reason : string) : M unit :=
  if cond then ret tt else revert (Error reason).

Definition checked_add (x y : uint256) : M uint256 :=
  if x + y <=? MAX_UINT256 then ret (x + y) else revert (Panic 17).

(** [for (uint256 i = 0; i < xs.length; i++) body(xs[i])] over a calldata
    or storage array that the body does not resize. An array length is a
    [uint256], so the counter itself never overflows. *)
Fixpoint for_each {A} (xs : list A) (body : A -> M unit) : M unit :=
  match xs with
  | [] => ret tt
  | x :: rest => body x >> for_each rest body
  end.

(** Call context: [msg.sender] and [block.timestamp]. *)
Record Env := mkEnv { msg_sender : address; block_timestamp : uint256 }.

(** ** The contract *)

Definition constructor (env : Env) : Storage :=
  mkStorage (msg_sender env) false 0 0 "" 0 [] [] ∅ ∅ ∅ ∅.

Definition onlyOwner (env : Env) : M unit :=
  let! s := get in require (msg_sender env =? owner s) "Only owner".

Definition onlyWhileActive : M unit :=
  let! s := get in require (electionActive s) "Election not active".

Definition onlyWhenInactive : M unit :=
  let! s := get in require (negb (electionActive s)) "Election active".

Definition setPollTitle (env : Env) (title : string) : M unit :=
  onlyOwner env >> onlyWhenInactive >>
  modify (fun s => set_pollTitle s title) >>
  emit (PollTitleSet title).

Definition setChoices (env : Env) (labels : list string) : M unit :=
  onlyOwner env >> onlyWhenInactive >>
  require (0 <? N.of_nat (length labels)) "No choices" >>
  modify (fun s => set_choices s []) >>
  for_each labels (fun l =>
    require (0 <? bytes_length l) "Empty choice" >>
    modify (fun s => set_choices s (choices s ++ [mkChoice l 0]))) >>
  emit (ChoicesSet (N.of_nat (length labels))).

Definition _clearWhitelist : M unit :=
  (let! s := get in
   for_each (whitelistAddresses s) (fun addr =>
     let! s1 := get in
     if read_flag (isWhitelisted s1) addr
     then modify (fun s2 => set_isWhitelisted s2 (<[addr := false]> (isWhitelisted s2)))
     else ret tt)) >>
  modify (fun s => set_whitelistAddresses s []).

Definition setWhitelist (env : Env) (voters : list address) : M unit :=
  onlyOwner env >> onlyWhenInactive >>
  require (0 <? N.of_nat (length voters)) "No voters" >>
  _clearWhitelist >>
  for_each voters (fun voter =>
    require (negb (voter =? 0)) "Invalid voter" >>
    let! s := get in
    if negb (read_flag (isWhitelisted s) voter)
    then modify (fun s1 => set_isWhitelisted s1 (<[voter := true]> (isWhitelisted s1))) >>
         modify (fun s1 => set_whitelistAddresses s1 (whitelistAddresses s1 ++ [voter]))
    else ret tt) >>
  emit (WhitelistSet (N.of_nat (length voters))).

Definition addToWhitelist (env : Env) (voter : address) : M unit :=
  onlyOwner env >> onlyWhenInactive >>
  require (negb (voter =? 0)) "Invalid voter" >>
  let! s := get in
  if negb (read_flag (isWhitelisted s) voter)
  then modify (fun s1 => set_isWhitelisted s1 (<[voter := true]> (isWhitelisted s1))) >>
       modify (fun s1 => set_whitelistAddresses s1 (whitelistAddresses s1 ++ [voter])) >>
       emit (WhitelistAdded voter)
  else ret tt.

Definition removeFromWhitelist (env : Env) (voter : address) : M unit :=
  onlyOwner env >> onlyWhenInactive >>
  (let! s := get in require (read_flag (isWhitelisted s) voter) "Not whitelisted") >>
  modify (fun s => set_isWhitelisted s (<[voter := false]> (isWhitelisted s))) >>
  emit (WhitelistRemoved voter).

(** [_activeWhitelistCount]: the counter is bounded by the array length,
    itself a [uint256], so [count += 1] cannot overflow. *)
Fixpoint count_active (flags : gmap N bool) (addrs : list address) (count : uint256) : uint256 :=
  match addrs with
  | [] => count
  | a :: rest => count_active flags rest (if read_flag flags a then count + 1 else count)
  end.

Definition _activeWhitelistCount (s : Storage) : uint256 :=
  count_active (isWhitelisted s) (whitelistAddresses s) 0.

Definition _resetVotes : M unit :=
  let! s := get in
  for_each (seq 0 (length (choices s))) (fun i =>
    modify (fun s1 =>
      set_choices s1 (alter (fun c => mkChoice (label c) 0) i (choices s1)))).

Definition startElection (env : Env) : M unit :=
  onlyOwner env >>
  (let! s := get in require (negb (electionActive s)) "Election already active") >>
  (let! s := get in require (0 <? N.of_nat (length (choices s))) "No choices") >>
  (let! s := get in require (0 <? _activeWhitelistCount s) "No voters") >>
  _resetVotes >>
  (let! s := get in
   let! id := checked_add (electionId s) 1 in
   modify (fun s1 => set_electionId s1 id)) >>
  modify (fun s => set_electionActive s true) >>
  modify (fun s => set_electionStart s (block_timestamp env)) >>
  modify (fun s => set_electionEnd s 0) >>
  (let! s := get in emit (ElectionStarted (electionStart s))).

Definition endElection (env : Env) : M unit :=
  onlyOwner env >>
  (let! s := get in require (electionActive s) "Election already ended") >>
  modify (fun s => set_electionActive s false) >>
  modify (fun s => set_electionEnd s (block_timestamp env)) >>
  (let! s := get in emit (ElectionEnded (electionEnd s))).

Definition vote (env : Env) (choiceIndex : uint256) : M unit :=
  onlyWhileActive >>
  (let! s := get in require (choiceIndex <? N.of_nat (length (choices s))) "Invalid choice") >>
  (let! s := get in require (read_flag (isWhitelisted s) (msg_sender env)) "Not whitelisted") >>
  (let! s := get in
   require (read_uint (lastVotedElection s) (msg_sender env) <? electionId s) "Already voted") >>
  modify (fun s => set_lastVotedElection s (<[msg_sender env := electionId s]> (lastVotedElection s))) >>
  modify (fun s => set_lastVotedChoice s (<[msg_sender env := choiceIndex]> (lastVotedChoice s))) >>
  modify (fun s => set_lastVotedAt s (<[msg_sender env := block_timestamp env]> (lastVotedAt s))) >>
  (let! s := get in
   match choices s !! N.to_nat choiceIndex with
   | None => revert (Panic 50)
   | Some c =>
       let! v := checked_add (votes c) 1 in
       modify (fun s1 => set_choices s1 (<[N.to_nat choiceIndex := mkChoice (label c) v]> (choices s1)))
   end) >>
  emit (VoteCast (msg_sender env) choiceIndex).

(** *** Read accessors *)

Definition choiceCount : M uint256 :=
  let! s := get in ret (N.of_nat (length (choices s))).

Definition choiceInfo (choiceIndex : uint256) : M (string * uint256) :=
  (let! s := get in require (choiceIndex <? N.of_nat (length (choices s))) "Invalid choice") >>
  let! s := get in
  match choices s !! N.to_nat choiceIndex with
  | None => revert (Panic 50)
  | Some choice => ret (label choice, votes choice)
  end.

Definition whitelistCount : M uint256 :=
  let! s := get in ret (N.of_nat (length (whitelistAddresses s))).

Definition whitelistEntry (index : uint256) : M (address * bool) :=
  (let! s := get in require (index <? N.of_nat (length (whitelistAddresses s))) "Invalid voter") >>
  let! s := get in
  match whitelistAddresses s !! N.to_nat index with
  | None => revert (Panic 50)
  | Some addr => ret (addr, read_flag (isWhitelisted s) addr)
  end.

Definition voterStatus (voter : address) : M (bool * bool * uint256 * uint256) :=
  let! s := get in
  let votedThisElection := read_uint (lastVotedElection s) voter =? electionId s in
  ret (read_flag (isWhitelisted s) voter,
       votedThisElection,
       if votedThisElection then read_uint (lastVotedChoice s) voter else 0,
       if votedThisElection then read_uint (lastVotedAt s) voter else 0).

(** The local variables of [getWinner]. *)
Record Leader := mkLeader { topVotes : uint256; topIndex : uint256; tie : bool; found : bool }.

(** One iteration of the loop of [getWinner], at index [i]. *)
Definition winner_step (choice : Choice) (i : uint256) (t : Leader) : Leader :=
  if negb (found t) || (topVotes t <? votes choice)
  then mkLeader (votes choice) i false true
  else if votes choice =? topVotes t
       then mkLeader (topVotes t) (topIndex t) true (found t)
       else t.

(** The loop from index [i] on, over the choices not yet visited. *)
Fixpoint winner_scan (cs : list Choice) (i : uint256) (t : Leader) : Leader :=
  match cs with
  | [] => t
  | choice :: rest => winner_scan rest (i + 1) (winner_step choice i t)
  end.

Definition getWinner : M (uint256 * string * uint256 * bool * bool) :=
  let! s := get in
  let t := winner_scan (choices s) 0 (mkLeader 0 0 false false) in
  if negb (found t) then ret (0, "", 0, false, false)
  else match choices s !! N.to_nat (topIndex t) with
       | None => revert (Panic 50)
       | Some c => ret (topIndex t, label c, topVotes t, tie t, true)
       end.

(** ** Transactions *)

Inductive Receipt :=
| Success (events : list Event)
| Reverted (f : Failure).

(** An external call: the writes of a reverted call are discarded. *)
Definition transact (body : M unit) (s : Storage) : Receipt * Storage :=
  match body s with
  | Done _ s' events => (Success events, s')
  | Revert f _ => (Reverted f, s)
  end.

(** The mutating entry points. *)
Inductive Call :=
| CallSetPollTitle (title : string)
| CallSetChoices (labels : list string)
| CallSetWhitelist (voters : list address)
| CallAddToWhitelist (voter : address)
| CallRemoveFromWhitelist (voter : address)
| CallStartElection
| CallEndElection
| CallVote (choiceIndex : uint256).

Definition dispatch (env : Env) (c : Call) : M unit :=
  match c with
  | CallSetPollTitle title => setPollTitle env title
  | CallSetChoices labels => setChoices env labels
  | CallSetWhitelist voters => setWhitelist env voters
  | CallAddToWhitelist voter => addToWhitelist env voter
  | CallRemoveFromWhitelist voter => removeFromWhitelist env voter
  | CallStartElection => startElection env
  | CallEndElection => endElection env
  | CallVote choiceIndex => vote env choiceIndex
  end.

(** The storage after a call, committed or not. *)
Definition after (env : Env) (c : Call) (s : Storage) : Storage :=
  snd (transact (dispatch env c) s).

(** A history of calls, oldest first. *)
Fixpoint replay (calls : list (Env * Call)) (s : Storage) : Storage :=
  match calls with
  | [] => s
  | (env, c) :: rest => replay rest (after env c s)
  end.

(** Senders are 160-bit addresses. *)
Definition valid_env (env : Env) : Prop := msg_sender env < ADDRESS_LIMIT.

(** The storages the deployed contract can be in. *)
Inductive reachable : Storage -> Prop :=
| reachable_deployed env :
    valid_env env -> reachable (constructor env)
| reachable_call env c s :
    valid_env env -> reachable s -> reachable (after env c s).

(** ** Vocabulary of the specification *)

Ltac unfold_monad :=
  unfold onlyOwner, onlyWhileActive, onlyWhenInactive,
    bind, get, modify, emit, require, checked_add, ret, revert in *.

Ltac run_body := unfold_monad; cbn.

Definition vote_ready (env : Env) (choiceIndex : uint256) (s : Storage) : Prop :=
  electionActive s = true /\
  choiceIndex < N.of_nat (length (choices s)) /\
  read_flag (isWhitelisted s) (msg_sender env) = true /\
  read_uint (lastVotedElection s) (msg_sender env) < electionId s.

(** The three ledger writes of [vote]. *)
Definition ledger_written (env : Env) (choiceIndex : uint256) (s : Storage) : Storage :=
  set_lastVotedAt
    (set_lastVotedChoice
       (set_lastVotedElection s (<[msg_sender env := electionId s]> (lastVotedElection s)))
       (<[msg_sender env := choiceIndex]> (lastVotedChoice s)))
    (<[msg_sender env := block_timestamp env]> (lastVotedAt s)).

Definition zeroed (cs : list Choice) : list Choice :=
  map (fun c => mkChoice (label c) 0) cs.

Definition fresh_choices (labels : list string) : list Choice :=
  map (fun l => mkChoice l 0) labels.

Definition nonblank (l : string) : bool := 0 <? bytes_length l.

(** The labels pushed before the first blank one is met. *)
Fixpoint accepted_labels (labels : list string) : list string :=
  match labels with
  | [] => []
  | l :: rest => if nonblank l then l :: accepted_labels rest else []
  end.

(** The flags after the loop of [_clearWhitelist]. *)
Definition cleared (flags : gmap N bool) (addrs : list address) : gmap N bool :=
  foldl (fun fl a => if read_flag fl a then <[a := false]> fl else fl) flags addrs.

(** One iteration of the loop of [setWhitelist] on the pair of the flags
    and the enumeration array, and the whole loop. *)
Definition enrol (w : gmap N bool * list address) (voter : address) : gmap N bool * list address :=
  if read_flag w.1 voter then w else (<[voter := true]> w.1, (w.2 ++ [voter])%list).

Definition enrolled (w : gmap N bool * list address) (voters : list address) :=
  foldl enrol w voters.

Definition nonzero (a : address) : bool := negb (a =? 0).

Fixpoint accepted_voters (voters : list address) : list address :=
  match voters with
  | [] => []
  | v :: rest => if nonzero v then v :: accepted_voters rest else []
  end.

Definition set_whitelist_pair (s : Storage) (w : gmap N bool * list address) : Storage :=
  set_whitelistAddresses (set_isWhitelisted s w.1) w.2.

(** The sum of the vote counters. *)
Definition tally (cs : list Choice) : N := foldr (fun c acc => votes c + acc) 0 cs.

(** The ledger entries stamped with the current election. *)
Definition voted_now (s : Storage) : gmap N N :=
  filter (fun kv => kv.2 = electionId s) (lastVotedElection s).

(** Every identity whose flag is set is in the enumeration array. *)
Definition tracked (s : Storage) : Prop :=
  forall a, read_flag (isWhitelisted s) a = true -> a ∈ whitelistAddresses s.

Record consistent (s : Storage) : Prop := mkConsistent {
  whitelist_tracked : tracked s;
  (* the ledger is keyed by 160-bit addresses *)
  ledger_keys : forall a, is_Some (lastVotedElection s !! a) -> a < ADDRESS_LIMIT;
  (* every counted vote has a ledger entry of the current election *)
  tally_bounded : (N.to_nat (tally (choices s)) <= size (voted_now s))%nat;
  (* no ledger entry is stamped with a future election *)
  ledger_past : forall a, read_uint (lastVotedElection s) a <= electionId s;
  (* while the election is open, who has voted in it is whitelisted *)
  voted_whitelisted : electionActive s = true ->
    forall a, read_uint (lastVotedElection s) a = electionId s ->
              read_flag (isWhitelisted s) a = true
}.

Definition deployer : Env := mkEnv 1 100.
Definition voterX : address := 1001.
Definition voterY : address := 1002.

Definition election_open : Storage :=
  replay [(deployer, CallSetChoices ["A"; "B"]);
          (deployer, CallSetWhitelist [voterX; voterY]);
          (mkEnv 1 105, CallStartElection)] (constructor deployer).

Definition ballots_cast : Storage :=
  replay [(mkEnv voterX 110, CallVote 0); (mkEnv voterY 120, CallVote 1)] election_open.

Definition second_election : Storage :=
  replay [(mkEnv 1 200, CallEndElection); (mkEnv 1 300, CallStartElection)] ballots_cast.

Ltac valid_envs := repeat (apply List.Forall_cons; [by vm_compute|]); apply List.Forall_nil.

Ltac branches := repeat case_match; simplify_eq; cbn; try done.

(** A history in which every call commits. *)
Fixpoint replay_committed (calls : list (Env * Call)) (s : Storage) : option Storage :=
  match calls with
  | [] => Some s
  | (env, c) :: rest =>
      match transact (dispatch env c) s with
      | (Success _, s') => replay_committed rest s'
      | (Reverted _, _) => None
      end
  end.

(** What the loop of [getWinner] has established about the choices [cs]
    visited so far. *)
Definition leads (cs : list Choice) (t : Leader) : Prop :=
  found t = true /\
  exists c, cs !! N.to_nat (topIndex t) = Some c /\ votes c = topVotes t /\
    (forall j d, cs !! j = Some d -> votes d <= topVotes t) /\
    (forall j d, cs !! j = Some d -> (j < N.to_nat (topIndex t))%nat -> votes d < topVotes t) /\
    (tie t = true <->
       exists j d, j <> N.to_nat (topIndex t) /\ cs !! j = Some d /\ votes d = topVotes t).

(** Every failed [require] of the body is met before the body has written
    to the storage. *)
Definition checks_before_writes (body : M unit) : Prop :=
  forall s reason s', body s = Revert (Error reason) s' -> s' = s.

Definition configured : Storage :=
  replay [(deployer, CallSetChoices ["A"; "B"]);
          (deployer, CallSetWhitelist [voterX; voterY])] (constructor deployer).

(** ** Vocabulary of the further properties *)

(** Before the first election every ledger mapping is empty and no
    election is open. *)
Definition never_started (s : Storage) : Prop :=
  electionId s = 0 ->
  electionActive s = false /\ lastVotedElection s = ∅ /\
  lastVotedChoice s = ∅ /\ lastVotedAt s = ∅.

(** Whether a history contains no [startElection] call. *)
Definition same_election (calls : list (Env * Call)) : Prop :=
  Forall (fun ec => ec.2 <> CallStartElection) calls.

(** While an election is open, the counters add up to the number of
    ledger entries stamped with it. *)
Definition open_tally_exact (s : Storage) : Prop :=
  electionActive s = true -> N.to_nat (tally (choices s)) = size (voted_now s).

(** No stored choice has an empty label. *)
Definition labels_nonblank (s : Storage) : Prop :=
  forall i c, choices s !! i = Some c -> nonblank (label c) = true.

(** The zero address has no flag and no entry. *)
Definition zero_unlisted (s : Storage) : Prop :=
  read_flag (isWhitelisted s) 0 = false /\ 0 ∉ whitelistAddresses s.

(** What an open election was started with. *)
Definition open_configured (s : Storage) : Prop :=
  electionActive s = true ->
  choices s <> [] /\ 1 <= electionId s /\ electionEnd s = 0 /\
  0 < _activeWhitelistCount s.

(** The report [(k, v, hasTie)] of [getWinner] on the choices [cs]. *)
Definition reports (cs : list Choice) (k : nat) (v : uint256) (hasTie : bool) : Prop :=
  (exists c, cs !! k = Some c /\ votes c = v) /\
  (forall j d, cs !! j = Some d -> votes d <= v) /\
  (forall j d, cs !! j = Some d -> (j < k)%nat -> votes d < v) /\
  (hasTie = true <-> exists j d, j <> k /\ cs !! j = Some d /\ votes d = v).

(** The event a committed call announces. *)
Definition announced (env : Env) (c : Call) : Event :=
  match c with
  | CallSetPollTitle title => PollTitleSet title
  | CallSetChoices labels => ChoicesSet (N.of_nat (length labels))
  | CallSetWhitelist voters => WhitelistSet (N.of_nat (length voters))
  | CallAddToWhitelist voter => WhitelistAdded voter
  | CallRemoveFromWhitelist voter => WhitelistRemoved voter
  | CallStartElection => ElectionStarted (block_timestamp env)
  | CallEndElection => ElectionEnded (block_timestamp env)
  | CallVote i => VoteCast (msg_sender env) i
  end.

(** ** The roster revision of the contract

    The earlier revision of [Voting] keeps a roster of named voters, each
    with its own [voted] flag, instead of the address whitelist and the
    election number; [vote] takes the index of the voter. *)

Module Roster.

Record Voter := mkVoter {
  name : string;
  voted : bool;
  choiceIndex : uint256;
  votedAt : uint256
}.

Record Storage := mkStorage {
  owner : address;
  electionActive : bool;
  electionStart : uint256;
  electionEnd : uint256;
  pollTitle : string;
  choices : list Choice;
  voters : list Voter
}.

Inductive Event :=
| PollTitleSet (title : string)
| ChoicesSet (count : uint256)
| VotersSet (count : uint256)
| ElectionStarted (startTime : uint256)
| ElectionEnded (endTime : uint256)
| VoteCast (voterIndex : uint256) (choiceIndex : uint256).

Definition set_electionActive (s : Storage) (v : bool) : Storage :=
  mkStorage (owner s) v (electionStart s) (electionEnd s) (pollTitle s) (choices s) (voters s).
Definition set_electionStart (s : Storage) (v : uint256) : Storage :=
  mkStorage (owner s) (electionActive s) v (electionEnd s) (pollTitle s) (choices s) (voters s).
Definition set_electionEnd (s : Storage) (v : uint256) : Storage :=
  mkStorage (owner s) (electionActive s) (electionStart s) v (pollTitle s) (choices s) (voters s).
Definition set_pollTitle (s : Storage) (v : string) : Storage :=
  mkStorage (owner s) (electionActive s) (electionStart s) (electionEnd s) v (choices s) (voters s).
Definition set_choices (s : Storage) (v : list Choice) : Storage :=
  mkStorage (owner s) (electionActive s) (electionStart s) (electionEnd s) (pollTitle s) v (voters s).
Definition set_voters (s : Storage) (v : list Voter) : Storage :=
  mkStorage (owner s) (electionActive s) (electionStart s) (electionEnd s) (pollTitle s) (choices s) v.

(** Execution of a body over the roster storage, as for the whitelist
    revision. *)
Inductive Result (A : Type) :=
| Done (a : A) (s : Storage) (events : list Event)
| Revert (f : Failure) (s : Storage).
Arguments Done {A} a s events.
Arguments Revert {A} f s.

Definition M (A : Type) : Type := Storage -> Result A.

Definition ret {A} (a : A) : M A := fun s => Done a s [].

Definition bind {A B} (m : M A) (k : A -> M B) : M B := fun s =>
  match m s with
  | Done a s1 ev1 =>
      match k a s1 with
      | Done b s2 ev2 => Done b s2 (ev1 ++ ev2)
      | Revert f s2 => Revert f s2
      end
  | Revert f s1 => Revert f s1
  end.

Local Notation "'do!' x ':=' m 'in' k" := (bind m (fun x => k))
  (at level 10, x name, m at level 100, k at level 200).
Local Notation "m >>> k" := (bind m (fun _ => k))
  (at level 90, right associativity).

Definition get : M Storage := fun s => Done s s [].
Definition modify (f : Storage -> Storage) : M unit := fun s => Done tt (f s) [].
Definition emit (e : Event) : M unit := fun s => Done tt s [e].
Definition revert {A} (f : Failure) : M A := fun s => Revert f s.

Definition require (cond : bool) (reason : string) : M unit :=
  if cond then ret tt else revert (Error reason).

Definition checked_add (x y : uint256) : M uint256 :=
  if x + y <=? MAX_UINT256 then ret (x + y) else revert (Panic 17).

Fixpoint for_each {A} (xs : list A) (body : A -> M unit) : M unit :=
  match xs with
  | [] => ret tt
  | x :: rest => body x >>> for_each rest body
  end.

Definition constructor (env : Env) : Storage :=
  mkStorage (msg_sender env) false 0 0 "" [] [].

Definition onlyOwner (env : Env) : M unit :=
  do! s := get in require (msg_sender env =? owner s) "Only owner".

Definition onlyWhileActive : M unit :=
  do! s := get in require (electionActive s) "Election not active".

Definition onlyWhenInactive : M unit :=
  do! s := get in require (negb (electionActive s)) "Election active".

Definition setPollTitle (env : Env) (title : string) : M unit :=
  onlyOwner env >>> onlyWhenInactive >>>
  modify (fun s => set_pollTitle s title) >>>
  emit (PollTitleSet title).

Definition setChoices (env : Env) (labels : list string) : M unit :=
  onlyOwner env >>> onlyWhenInactive >>>
  require (0 <? N.of_nat (length labels)) "No choices" >>>
  modify (fun s => set_choices s []) >>>
  for_each labels (fun l =>
    require (0 <? bytes_length l) "Empty choice" >>>
    modify (fun s => set_choices s (Roster.choices s ++ [mkChoice l 0]))) >>>
  emit (ChoicesSet (N.of_nat (length labels))).

Definition _resetVotes : M unit :=
  do! s := get in
  for_each (seq 0 (length (choices s))) (fun i =>
    modify (fun s1 =>
      set_choices s1 (alter (fun c => mkChoice (label c) 0) i (choices s1)))).

Definition setVoters (env : Env) (names : list string) : M unit :=
  onlyOwner env >>> onlyWhenInactive >>>
  require (0 <? N.of_nat (length names)) "No voters" >>>
  modify (fun s => set_voters s []) >>>
  for_each names (fun n =>
    require (0 <? bytes_length n) "Empty voter" >>>
    modify (fun s => set_voters s (voters s ++ [mkVoter n false 0 0]))) >>>
  _resetVotes >>>
  emit (VotersSet (N.of_nat (length names))).

Definition startElection (env : Env) : M unit :=
  onlyOwner env >>>
  (do! s := get in require (negb (electionActive s)) "Election already active") >>>
  (do! s := get in require (0 <? N.of_nat (length (choices s))) "No choices") >>>
  (do! s := get in require (0 <? N.of_nat (length (voters s))) "No voters") >>>
  modify (fun s => set_electionActive s true) >>>
  modify (fun s => set_electionStart s (block_timestamp env)) >>>
  modify (fun s => set_electionEnd s 0) >>>
  (do! s := get in emit (ElectionStarted (electionStart s))).

Definition endElection (env : Env) : M unit :=
  onlyOwner env >>>
  (do! s := get in require (electionActive s) "Election already ended") >>>
  modify (fun s => set_electionActive s false) >>>
  modify (fun s => set_electionEnd s (block_timestamp env)) >>>
  (do! s := get in emit (ElectionEnded (electionEnd s))).

(** [Voter storage voter = voters[voterIndex]] is a reference into the
    array: the three field writes update the stored element. *)
Definition vote (env : Env) (voterIndex choiceIndex : uint256) : M unit :=
  onlyWhileActive >>>
  (do! s := get in require (voterIndex <? N.of_nat (length (voters s))) "Invalid voter") >>>
  (do! s := get in require (choiceIndex <? N.of_nat (length (choices s))) "Invalid choice") >>>
  (do! s := get in
   match voters s !! N.to_nat voterIndex with
   | None => revert (Panic 50)
   | Some voter => require (negb (voted voter)) "Already voted"
   end) >>>
  modify (fun s => set_voters s
    (alter (fun v => mkVoter (name v) true (Roster.choiceIndex v) (votedAt v))
       (N.to_nat voterIndex) (voters s))) >>>
  modify (fun s => set_voters s
    (alter (fun v => mkVoter (name v) (voted v) choiceIndex (votedAt v))
       (N.to_nat voterIndex) (voters s))) >>>
  modify (fun s => set_voters s
    (alter (fun v => mkVoter (name v) (voted v) (Roster.choiceIndex v) (block_timestamp env))
       (N.to_nat voterIndex) (voters s))) >>>
  (do! s := get in
   match choices s !! N.to_nat choiceIndex with
   | None => revert (Panic 50)
   | Some c =>
       do! v := checked_add (votes c) 1 in
       modify (fun s1 => set_choices s1
         (<[N.to_nat choiceIndex := mkChoice (label c) v]> (choices s1)))
   end) >>>
  emit (VoteCast voterIndex choiceIndex).

Definition choiceCount : M uint256 :=
  do! s := get in ret (N.of_nat (length (choices s))).

Definition choiceInfo (choiceIndex : uint256) : M (string * uint256) :=
  (do! s := get in require (choiceIndex <? N.of_nat (length (choices s))) "Invalid choice") >>>
  do! s := get in
  match choices s !! N.to_nat choiceIndex with
  | None => revert (Panic 50)
  | Some choice => ret (label choice, votes choice)
  end.

Definition voterCount : M uint256 :=
  do! s := get in ret (N.of_nat (length (voters s))).

Definition voterInfo (voterIndex : uint256) : M (string * bool * uint256 * uint256) :=
  (do! s := get in require (voterIndex <? N.of_nat (length (voters s))) "Invalid voter") >>>
  do! s := get in
  match voters s !! N.to_nat voterIndex with
  | None => revert (Panic 50)
  | Some voter => ret (name voter, voted voter, Roster.choiceIndex voter, votedAt voter)
  end.

Definition getWinner : M (uint256 * string * uint256 * bool * bool) :=
  do! s := get in
  let t := winner_scan (choices s) 0 (mkLeader 0 0 false false) in
  if negb (found t) then ret (0, "", 0, false, false)
  else match choices s !! N.to_nat (topIndex t) with
       | None => revert (Panic 50)
       | Some c => ret (topIndex t, label c, topVotes t, tie t, true)
       end.

Inductive Receipt :=
| Success (events : list Event)
| Reverted (f : Failure).

Definition transact (body : M unit) (s : Storage) : Receipt * Storage :=
  match body s with
  | Done _ s' events => (Success events, s')
  | Revert f _ => (Reverted f, s)
  end.

Inductive Call :=
| CallSetPollTitle (title : string)
| CallSetChoices (labels : list string)
| CallSetVoters (names : list string)
| CallStartElection
| CallEndElection
| CallVote (voterIndex choiceIndex : uint256).

Definition dispatch (env : Env) (c : Call) : M unit :=
  match c with
  | CallSetPollTitle title => setPollTitle env title
  | CallSetChoices labels => setChoices env labels
  | CallSetVoters names => setVoters env names
  | CallStartElection => startElection env
  | CallEndElection => endElection env
  | CallVote voterIndex choiceIndex => vote env voterIndex choiceIndex
  end.

Definition after (env : Env) (c : Call) (s : Storage) : Storage :=
  snd (transact (dispatch env c) s).

Fixpoint replay (calls : list (Env * Call)) (s : Storage) : Storage :=
  match calls with
  | [] => s
  | (env, c) :: rest => replay rest (after env c s)
  end.

(** The roster is not set again in the history. *)
Definition same_roster (calls : list (Env * Call)) : Prop :=
  Forall (fun ec => forall names, ec.2 <> CallSetVoters names) calls.

(** The voter record after its three writes in [vote]. *)
Definition marked (env : Env) (choiceIndex : uint256) (v : Voter) : Voter :=
  mkVoter (name v) true choiceIndex (block_timestamp env).

(** The roster [setVoters] builds. *)
Definition enlisted (names : list string) : list Voter :=
  map (fun n => mkVoter n false 0 0) names.

(** A roster of three on a poll of two, opened. *)
Definition poll_open : Storage :=
  replay [(deployer, CallSetChoices ["A"; "B"]);
          (deployer, CallSetVoters ["Ann"; "Bob"; "Cy"]);
          (mkEnv 1 105, CallStartElection)] (constructor deployer).

End Roster.

(** ** Running the bodies *)

Lemma vote_run env i s :
  vote env i s =
    if negb (electionActive s) then Revert (Error "Election not active") s
    else if negb (i <? N.of_nat (length (choices s))) then Revert (Error "Invalid choice") s
    else if negb (read_flag (isWhitelisted s) (msg_sender env)) then Revert (Error "Not whitelisted") s
    else if negb (read_uint (lastVotedElection s) (msg_sender env) <? electionId s)
         then Revert (Error "Already voted") s
    else match choices s !! N.to_nat i with
         | None => Revert (Panic 50) (ledger_written env i s)
         | Some c =>
             if votes c + 1 <=? MAX_UINT256
             then Done tt (set_choices (ledger_written env i s)
                             (<[N.to_nat i := mkChoice (label c) (votes c + 1)]> (choices s)))
                    [VoteCast (msg_sender env) i]
             else Revert (Panic 17) (ledger_written env i s)
         end.
Proof.
  unfold vote. run_body.
  destruct (electionActive s); cbn; [|reflexivity].
  destruct (i <? _); cbn; [|reflexivity].
  destruct (read_flag _ _); cbn; [|reflexivity].
  destruct (_ <? electionId s); cbn; [|reflexivity].
  destruct (choices s !! N.to_nat i) as [c|]; cbn; [|reflexivity].
  destruct (votes c + 1 <=? MAX_UINT256); reflexivity.
Qed.

Lemma endElection_run env s :
  endElection env s =
    if negb (msg_sender env =? owner s) then Revert (Error "Only owner") s
    else if negb (electionActive s) then Revert (Error "Election already ended") s
    else Done tt (set_electionEnd (set_electionActive s false) (block_timestamp env))
           [ElectionEnded (block_timestamp env)].
Proof.
  unfold endElection. run_body.
  destruct (msg_sender env =? owner s); cbn; [|reflexivity].
  destruct (electionActive s); reflexivity.
Qed.

Lemma removeFromWhitelist_run env voter s :
  removeFromWhitelist env voter s =
    if negb (msg_sender env =? owner s) then Revert (Error "Only owner") s
    else if electionActive s then Revert (Error "Election active") s
    else if negb (read_flag (isWhitelisted s) voter) then Revert (Error "Not whitelisted") s
    else Done tt (set_isWhitelisted s (<[voter := false]> (isWhitelisted s)))
           [WhitelistRemoved voter].
Proof.
  unfold removeFromWhitelist. run_body.
  destruct (msg_sender env =? owner s); cbn; [|reflexivity].
  destruct (electionActive s); cbn; [reflexivity|].
  destruct (read_flag _ _); reflexivity.
Qed.

Lemma addToWhitelist_run env voter s :
  addToWhitelist env voter s =
    if negb (msg_sender env =? owner s) then Revert (Error "Only owner") s
    else if electionActive s then Revert (Error "Election active") s
    else if voter =? 0 then Revert (Error "Invalid voter") s
    else if read_flag (isWhitelisted s) voter then Done tt s []
    else Done tt (set_whitelistAddresses
                    (set_isWhitelisted s (<[voter := true]> (isWhitelisted s)))
                    (whitelistAddresses s ++ [voter]))
           [WhitelistAdded voter].
Proof.
  unfold addToWhitelist. run_body.
  destruct (msg_sender env =? owner s); cbn; [|reflexivity].
  destruct (electionActive s); cbn; [reflexivity|].
  destruct (voter =? 0); cbn; [reflexivity|].
  destruct (read_flag _ _); reflexivity.
Qed.

Lemma setPollTitle_run env title s :
  setPollTitle env title s =
    if negb (msg_sender env =? owner s) then Revert (Error "Only owner") s
    else if electionActive s then Revert (Error "Election active") s
    else Done tt (set_pollTitle s title) [PollTitleSet title].
Proof.
  unfold setPollTitle. run_body.
  destruct (msg_sender env =? owner s); cbn; [|reflexivity].
  destruct (electionActive s); reflexivity.
Qed.

Lemma reset_loop_run (rest pre : list Choice) s :
  choices s = (pre ++ rest)%list ->
  for_each (seq (length pre) (length rest)) (fun i =>
    modify (fun s1 =>
      set_choices s1 (alter (fun c => mkChoice (label c) 0) i (choices s1)))) s =
  Done tt (set_choices s (pre ++ zeroed rest)) [].
Proof.
  revert pre s. induction rest as [|c rest IH]; intros pre s Hcs; cbn.
  - unfold ret. rewrite app_nil_r in Hcs |- *. rewrite <- Hcs. by destruct s.
  - replace (S (length pre)) with (length (pre ++ [mkChoice (label c) 0]))
      by (rewrite length_app; cbn; lia).
    rewrite IH.
    + cbn. by rewrite <- app_assoc.
    + cbn. rewrite Hcs, <- app_assoc. cbn.
      replace (length pre) with (length pre + 0)%nat at 1 by lia.
      by rewrite alter_app_r.
Qed.

Lemma _resetVotes_run s :
  _resetVotes s = Done tt (set_choices s (zeroed (choices s))) [].
Proof.
  unfold _resetVotes. unfold bind at 1, get at 1.
  change 0%nat with (length (@nil Choice)).
  by rewrite (reset_loop_run (choices s) [] s).
Qed.

Lemma startElection_run env s :
  startElection env s =
    if negb (msg_sender env =? owner s) then Revert (Error "Only owner") s
    else if electionActive s then Revert (Error "Election already active") s
    else if negb (0 <? N.of_nat (length (choices s))) then Revert (Error "No choices") s
    else if negb (0 <? _activeWhitelistCount s) then Revert (Error "No voters") s
    else if electionId s + 1 <=? MAX_UINT256
         then Done tt
                (set_electionEnd
                   (set_electionStart
                      (set_electionActive
                         (set_electionId (set_choices s (zeroed (choices s))) (electionId s + 1))
                         true)
                      (block_timestamp env))
                   0)
                [ElectionStarted (block_timestamp env)]
         else Revert (Panic 17) (set_choices s (zeroed (choices s))).
Proof.
  unfold startElection.
  unfold bind at 1. unfold onlyOwner at 1. unfold bind at 1, get at 1, require at 1.
  destruct (msg_sender env =? owner s); cbn; [|reflexivity].
  unfold bind at 1. unfold bind at 1, get at 1, require at 1.
  destruct (electionActive s); cbn; [reflexivity|].
  unfold bind at 1. unfold bind at 1, get at 1, require at 1.
  destruct (0 <? N.of_nat _); cbn; [|reflexivity].
  unfold bind at 1. unfold bind at 1, get at 1, require at 1.
  destruct (0 <? _activeWhitelistCount s); cbn; [|reflexivity].
  unfold bind at 1. rewrite _resetVotes_run.
  unfold_monad. cbn.
  destruct (electionId s + 1 <=? MAX_UINT256); reflexivity.
Qed.

(** *** The loops *)

Lemma push_choices_run labels s :
  for_each labels (fun l =>
    require (0 <? bytes_length l) "Empty choice" >>
    modify (fun s => set_choices s (choices s ++ [mkChoice l 0]))) s =
  if forallb nonblank labels
  then Done tt (set_choices s (choices s ++ fresh_choices labels)) []
  else Revert (Error "Empty choice")
         (set_choices s (choices s ++ fresh_choices (accepted_labels labels))).
Proof.
  revert s. induction labels as [|l rest IH]; intros s; cbn.
  - unfold ret. rewrite app_nil_r. by destruct s.
  - unfold bind at 1. unfold bind at 1. unfold require, nonblank.
    destruct (0 <? bytes_length l) eqn:Hl; cbn.
    + rewrite IH. cbn. fold (nonblank).
      destruct (forallb nonblank rest); cbn; by rewrite <- app_assoc.
    + rewrite app_nil_r. by destruct s.
Qed.

Lemma setChoices_run env labels s :
  setChoices env labels s =
    if negb (msg_sender env =? owner s) then Revert (Error "Only owner") s
    else if electionActive s then Revert (Error "Election active") s
    else if negb (0 <? N.of_nat (length labels)) then Revert (Error "No choices") s
    else if forallb nonblank labels
         then Done tt (set_choices s (fresh_choices labels))
                [ChoicesSet (N.of_nat (length labels))]
         else Revert (Error "Empty choice")
                (set_choices s (fresh_choices (accepted_labels labels))).
Proof.
  unfold setChoices.
  unfold bind at 1. unfold onlyOwner at 1. unfold bind at 1, get at 1, require at 1.
  destruct (msg_sender env =? owner s); cbn; [|reflexivity].
  unfold bind at 1. unfold onlyWhenInactive at 1. unfold bind at 1, get at 1, require at 1.
  destruct (electionActive s); cbn; [reflexivity|].
  unfold bind at 1. unfold require at 1.
  destruct (0 <? N.of_nat (length labels)); cbn; [|reflexivity].
  unfold bind at 1. unfold modify at 1.
  unfold bind at 1. rewrite push_choices_run. cbn.
  destruct (forallb nonblank labels); reflexivity.
Qed.

Lemma clear_loop_run addrs s :
  for_each addrs (fun addr =>
     let! s1 := get in
     if read_flag (isWhitelisted s1) addr
     then modify (fun s2 => set_isWhitelisted s2 (<[addr := false]> (isWhitelisted s2)))
     else ret tt) s =
  Done tt (set_isWhitelisted s (cleared (isWhitelisted s) addrs)) [].
Proof.
  revert s. induction addrs as [|a rest IH]; intros s; cbn.
  - unfold ret. by destruct s.
  - unfold bind at 1. unfold bind at 1, get at 1.
    destruct (read_flag (isWhitelisted s) a) eqn:Ha.
    + unfold modify at 1. rewrite IH. reflexivity.
    + unfold ret at 1. rewrite IH. reflexivity.
Qed.

Lemma _clearWhitelist_run s :
  _clearWhitelist s =
    Done tt (set_whitelistAddresses
               (set_isWhitelisted s (cleared (isWhitelisted s) (whitelistAddresses s))) []) [].
Proof.
  unfold _clearWhitelist. unfold bind at 1. unfold bind at 1, get at 1.
  rewrite clear_loop_run. reflexivity.
Qed.

Lemma read_flag_cleared flags addrs a :
  read_flag (cleared flags addrs) a =
    if decide (a ∈ addrs) then false else read_flag flags a.
Proof.
  revert flags. induction addrs as [|b rest IH]; intros flags; cbn.
  - rewrite decide_False by apply not_elem_of_nil. reflexivity.
  - rewrite IH. destruct (decide (a ∈ rest)) as [Hin|Hnin].
    + rewrite decide_True by (by right). reflexivity.
    + destruct (decide (a = b)) as [->|Hne].
      * rewrite decide_True by left.
        destruct (read_flag flags b) eqn:Hb; [|done].
        unfold read_flag. by rewrite lookup_insert_eq.
      * rewrite decide_False by (intros [?|?]%elem_of_cons; done).
        destruct (read_flag flags b); [|done].
        unfold read_flag. by rewrite lookup_insert_ne.
Qed.

Lemma enrol_loop_run voters s :
  for_each voters (fun voter =>
    require (negb (voter =? 0)) "Invalid voter" >>
    let! s := get in
    if negb (read_flag (isWhitelisted s) voter)
    then modify (fun s1 => set_isWhitelisted s1 (<[voter := true]> (isWhitelisted s1))) >>
         modify (fun s1 => set_whitelistAddresses s1 (whitelistAddresses s1 ++ [voter]))
    else ret tt) s =
  if forallb nonzero voters
  then Done tt (set_whitelist_pair s
                  (enrolled (isWhitelisted s, whitelistAddresses s) voters)) []
  else Revert (Error "Invalid voter")
         (set_whitelist_pair s
            (enrolled (isWhitelisted s, whitelistAddresses s) (accepted_voters voters))).
Proof.
  revert s. induction voters as [|v rest IH]; intros s; cbn.
  - unfold ret. by destruct s.
  - unfold bind at 1. unfold bind at 1. unfold require at 1, nonzero.
    destruct (v =? 0) eqn:Hv; cbn.
    + by destruct s.
    + unfold bind at 1, get at 1.
      pose proof (eq_refl : enrol (isWhitelisted s, whitelistAddresses s) v =
        if read_flag (isWhitelisted s) v then _ else _) as He.
      destruct (read_flag (isWhitelisted s) v) eqn:Hw; cbn.
      * rewrite IH. fold nonzero. unfold enrolled. cbn [foldl]. rewrite He.
        destruct (forallb nonzero rest); reflexivity.
      * unfold bind at 1, modify at 1 2. rewrite IH. cbn. fold nonzero.
        unfold enrolled. cbn [foldl]. rewrite He.
        destruct (forallb nonzero rest); reflexivity.
Qed.

Lemma setWhitelist_run env voters s :
  setWhitelist env voters s =
    if negb (msg_sender env =? owner s) then Revert (Error "Only owner") s
    else if electionActive s then Revert (Error "Election active") s
    else if negb (0 <? N.of_nat (length voters)) then Revert (Error "No voters") s
    else if forallb nonzero voters
         then Done tt
                (set_whitelist_pair s
                   (enrolled (cleared (isWhitelisted s) (whitelistAddresses s), []) voters))
                [WhitelistSet (N.of_nat (length voters))]
         else Revert (Error "Invalid voter")
                (set_whitelist_pair s
                   (enrolled (cleared (isWhitelisted s) (whitelistAddresses s), [])
                      (accepted_voters voters))).
Proof.
  unfold setWhitelist.
  unfold bind at 1. unfold onlyOwner at 1. unfold bind at 1, get at 1, require at 1.
  destruct (msg_sender env =? owner s); cbn; [|reflexivity].
  unfold bind at 1. unfold onlyWhenInactive at 1. unfold bind at 1, get at 1, require at 1.
  destruct (electionActive s); cbn; [reflexivity|].
  unfold bind at 1. unfold require at 1.
  destruct (0 <? N.of_nat (length voters)); cbn; [|reflexivity].
  unfold bind at 1. rewrite _clearWhitelist_run.
  unfold bind at 1. rewrite enrol_loop_run. cbn.
  destruct (forallb nonzero voters); reflexivity.
Qed.

(** ** Invariants of the reachable storages *)

Lemma address_headroom : ADDRESS_LIMIT + 1 <= MAX_UINT256.
Proof. by vm_compute. Qed.

Lemma bounded_keys_size {V} (m : gmap N V) (n : N) :
  (forall k, is_Some (m !! k) -> k < n) -> (size m <= N.to_nat n)%nat.
Proof.
  intros Hkeys. rewrite <- (size_dom (D := gset N)).
  transitivity (size (list_to_set (N.of_nat <$> seq 0 (N.to_nat n)) : gset N)).
  - apply subseteq_size. intros k Hk%elem_of_dom.
    apply elem_of_list_to_set, list_elem_of_fmap. exists (N.to_nat k).
    split; [lia|]. apply elem_of_seq. specialize (Hkeys k Hk). lia.
  - rewrite size_list_to_set.
    + by rewrite length_fmap, length_seq.
    + apply NoDup_fmap_2; [intros x y; lia | apply NoDup_seq].
Qed.

Lemma tally_zeroed cs : tally (zeroed cs) = 0.
Proof. unfold tally, zeroed. induction cs as [|c cs IH]; cbn; [done | by rewrite IH]. Qed.

Lemma tally_fresh labels : tally (fresh_choices labels) = 0.
Proof. unfold tally, fresh_choices. induction labels as [|l ls IH]; cbn; [done | by rewrite IH]. Qed.

Lemma tally_ge cs i c : cs !! i = Some c -> votes c <= tally cs.
Proof.
  revert i. induction cs as [|d cs IH]; intros [|i] H; cbn in *; try done.
  - injection H as ->. lia.
  - specialize (IH _ H). unfold tally in IH. lia.
Qed.

Lemma tally_insert cs i c l :
  cs !! i = Some c -> tally (<[i := mkChoice l (votes c + 1)]> cs) = tally cs + 1.
Proof.
  revert i. induction cs as [|d cs IH]; intros [|i] H; cbn in *; try done.
  - injection H as ->. lia.
  - specialize (IH _ H).
    change (votes d + tally (<[i := mkChoice l (votes c + 1)]> cs) = votes d + tally cs + 1).
    lia.
Qed.

Lemma votes_below_limit s i c :
  consistent s -> choices s !! i = Some c -> votes c + 1 <= MAX_UINT256.
Proof.
  intros [_ Hkeys Htally _ _] Hc.
  pose proof (tally_ge _ _ _ Hc) as Hle.
  pose proof (bounded_keys_size _ _ Hkeys) as Hsize.
  pose proof (map_subseteq_size _ _
    (map_filter_subseteq (fun kv => kv.2 = electionId s) (lastVotedElection s))) as Hsub.
  fold (voted_now s) in Hsub.
  pose proof address_headroom. lia.
Qed.

Lemma enrolled_tracked w voters :
  (forall a, read_flag w.1 a = true -> a ∈ w.2) ->
  forall a, read_flag (enrolled w voters).1 a = true -> a ∈ (enrolled w voters).2.
Proof.
  revert w. induction voters as [|v rest IH]; intros w Hw; [exact Hw|].
  cbn. apply IH. intros a. unfold enrol.
  destruct (read_flag w.1 v) eqn:Hv; [apply Hw|]. cbn.
  unfold read_flag at 1. destruct (decide (a = v)) as [->|Hne].
  - intros _. apply elem_of_app. right. by left.
  - rewrite lookup_insert_ne by done. intros Ha. apply elem_of_app. left. by apply Hw.
Qed.

Lemma tracked_after env c s : tracked s -> tracked (after env c s).
Proof.
  intros Htr. unfold after, transact.
  destruct c as [title|labels|voters|voter|voter| | |i]; cbn [dispatch].
  - rewrite setPollTitle_run. repeat case_match; simplify_eq; exact Htr.
  - rewrite setChoices_run. repeat case_match; simplify_eq; exact Htr.
  - rewrite setWhitelist_run. repeat case_match; simplify_eq; try exact Htr. unfold tracked. cbn.
    apply enrolled_tracked. cbn. intros a. rewrite read_flag_cleared.
    destruct (decide _); [done|]. intros Ha. by apply Htr in Ha.
  - rewrite addToWhitelist_run. repeat case_match; simplify_eq; try exact Htr. unfold tracked. cbn.
    intros a. cbn. unfold read_flag at 1. destruct (decide (a = voter)) as [->|Hne].
    + intros _. apply elem_of_app. right. by left.
    + rewrite lookup_insert_ne by done. intros Ha. apply elem_of_app. left. by apply Htr.
  - rewrite removeFromWhitelist_run. repeat case_match; simplify_eq; try exact Htr. unfold tracked. cbn.
    intros a. cbn. unfold read_flag at 1. destruct (decide (a = voter)) as [->|Hne].
    + by rewrite lookup_insert_eq.
    + rewrite lookup_insert_ne by done. apply Htr.
  - rewrite startElection_run. repeat case_match; simplify_eq; exact Htr.
  - rewrite endElection_run. repeat case_match; simplify_eq; exact Htr.
  - rewrite vote_run. repeat case_match; simplify_eq; exact Htr.
Qed.

Lemma consistent_deployed env : consistent (constructor env).
Proof.
  split; cbn.
  - intros a. unfold read_flag. cbn. by rewrite lookup_empty.
  - intros a [x Hx]. by rewrite lookup_empty in Hx.
  - lia.
  - intros a. unfold read_uint. by rewrite lookup_empty.
  - done.
Qed.

Lemma consistent_after env c s :
  valid_env env -> consistent s -> consistent (after env c s).
Proof.
  intros Henv [Htr Hkeys Htally Hpast Hvw].
  split; [by apply tracked_after| | | |]; clear Htr;
    unfold after, transact;
    destruct c as [title|labels|voters|voter|voter| | |i]; cbn [dispatch];
    first [ rewrite setPollTitle_run | rewrite setChoices_run | rewrite setWhitelist_run
          | rewrite addToWhitelist_run | rewrite removeFromWhitelist_run
          | rewrite startElection_run | rewrite endElection_run | rewrite vote_run ];
    repeat case_match; simplify_eq; try done; cbn in *;
    eauto; try (intros; congruence).
  - intros a [x Hx]. destruct (decide (a = msg_sender env)) as [->|Hne]; [exact Henv|].
    rewrite lookup_insert_ne in Hx by done. by apply Hkeys.
  - rewrite tally_fresh. cbn. lia.
  - rewrite tally_zeroed. cbn. lia.
  - match goal with H : _ !! _ = Some _ |- _ => rewrite (tally_insert _ _ _ _ H) end.
    unfold voted_now in *. cbn.
    match goal with H : negb (_ <? electionId s) = false |- _ =>
      apply negb_false_iff, N.ltb_lt in H; rename H into Hlt end.
    rewrite map_filter_insert_True by done.
    rewrite map_size_insert_None; [lia|].
    apply map_lookup_filter_None. right. intros x Hx Hx2. cbn in Hx2.
    unfold read_uint in Hlt. rewrite Hx in Hlt. cbn in Hlt. lia.
  - intros a. specialize (Hpast a). lia.
  - match goal with H : negb (_ <? electionId s) = false |- _ =>
      apply negb_false_iff, N.ltb_lt in H; rename H into Hlt end.
    intros a. unfold read_uint at 1. destruct (decide (a = msg_sender env)) as [->|Hne].
    + rewrite lookup_insert_eq. cbn. lia.
    + rewrite lookup_insert_ne by done. apply Hpast.
  - intros _ a Ha. specialize (Hpast a). lia.
  - intros Hact a. unfold read_uint at 1.
    destruct (decide (a = msg_sender env)) as [->|Hne].
    + intros _. by apply negb_false_iff.
    + rewrite lookup_insert_ne by done. by apply Hvw.
Qed.

Lemma reachable_consistent s : reachable s -> consistent s.
Proof.
  induction 1 as [env Henv|env c s Henv _ IH].
  - apply consistent_deployed.
  - by apply consistent_after.
Qed.

(** ** The vote ledger *)

Lemma vote_ready_commits env i s :
  consistent s -> vote_ready env i s ->
  exists c, choices s !! N.to_nat i = Some c /\
    vote env i s =
      Done tt (set_choices (ledger_written env i s)
                 (<[N.to_nat i := mkChoice (label c) (votes c + 1)]> (choices s)))
        [VoteCast (msg_sender env) i].
Proof.
  intros Hs (Hact & Hidx & Hwl & Hlv).
  destruct (lookup_lt_is_Some_2 (choices s) (N.to_nat i)) as [c Hc]; [lia|].
  exists c. split; [done|]. rewrite vote_run, Hact, Hwl, Hc. cbn.
  apply N.ltb_lt in Hidx, Hlv. rewrite Hidx, Hlv. cbn.
  pose proof (votes_below_limit _ _ _ Hs Hc) as Hv. apply N.leb_le in Hv.
  by rewrite Hv.
Qed.

Lemma vote_not_ready_reverts env i s :
  ~ vote_ready env i s -> exists reason, vote env i s = Revert (Error reason) s.
Proof.
  intros Hnot. rewrite vote_run.
  destruct (electionActive s) eqn:Hact; cbn; [|by eexists].
  destruct (i <? _) eqn:Hidx; cbn; [|by eexists].
  destruct (read_flag _ _) eqn:Hwl; cbn; [|by eexists].
  destruct (_ <? electionId s) eqn:Hlv; cbn; [|by eexists].
  exfalso. apply Hnot. apply N.ltb_lt in Hidx, Hlv. by repeat split.
Qed.

(** C1: [vote] commits exactly when the election is active, the index is
    below the number of choices, the caller is whitelisted and the caller's
    last voted election is older than the current one. The four checks fail
    in that order with "Election not active", "Invalid choice", "Not
    whitelisted" and "Already voted", each leaving the storage as it was.
    A committed vote stamps the caller's ledger entry with the current
    election, the chosen index and the block time, adds exactly one to the
    chosen counter and changes nothing else. *)
Theorem vote_commits_iff_ready env i s :
  reachable s ->
  ((exists events s', transact (vote env i) s = (Success events, s')) <-> vote_ready env i s)
  /\ (electionActive s = false ->
      transact (vote env i) s = (Reverted (Error "Election not active"), s))
  /\ (electionActive s = true -> N.of_nat (length (choices s)) <= i ->
      transact (vote env i) s = (Reverted (Error "Invalid choice"), s))
  /\ (electionActive s = true -> i < N.of_nat (length (choices s)) ->
      read_flag (isWhitelisted s) (msg_sender env) = false ->
      transact (vote env i) s = (Reverted (Error "Not whitelisted"), s))
  /\ (electionActive s = true -> i < N.of_nat (length (choices s)) ->
      read_flag (isWhitelisted s) (msg_sender env) = true ->
      electionId s <= read_uint (lastVotedElection s) (msg_sender env) ->
      transact (vote env i) s = (Reverted (Error "Already voted"), s))
  /\ (vote_ready env i s ->
      exists s', transact (vote env i) s = (Success [VoteCast (msg_sender env) i], s') /\
        lastVotedElection s' = <[msg_sender env := electionId s]> (lastVotedElection s) /\
        lastVotedChoice s' = <[msg_sender env := i]> (lastVotedChoice s) /\
        lastVotedAt s' = <[msg_sender env := block_timestamp env]> (lastVotedAt s) /\
        (forall j, choices s' !! j =
           (fun c => mkChoice (label c)
                       (if decide (j = N.to_nat i) then votes c + 1 else votes c))
             <$> choices s !! j) /\
        owner s' = owner s /\ electionActive s' = electionActive s /\
        electionStart s' = electionStart s /\ electionEnd s' = electionEnd s /\
        pollTitle s' = pollTitle s /\ electionId s' = electionId s /\
        whitelistAddresses s' = whitelistAddresses s /\
        isWhitelisted s' = isWhitelisted s).
Proof.
  intros Hs%reachable_consistent. repeat apply conj.
  - intros (events & s' & Hrun). destruct (decide (vote_ready env i s)) as [|Hnot]; [done|].
    apply vote_not_ready_reverts in Hnot as [reason Hrev].
    unfold transact in Hrun. by rewrite Hrev in Hrun.
  - intros Hready. destruct (vote_ready_commits _ _ _ Hs Hready) as (c & _ & Hrun).
    unfold transact. rewrite Hrun. by eexists _, _.
  - intros Hact. unfold transact. by rewrite vote_run, Hact.
  - intros Hact Hidx%N.ltb_ge. unfold transact. by rewrite vote_run, Hact, Hidx.
  - intros Hact Hidx%N.ltb_lt Hwl. unfold transact. by rewrite vote_run, Hact, Hidx, Hwl.
  - intros Hact Hidx%N.ltb_lt Hwl Hlv%N.ltb_ge. unfold transact.
    by rewrite vote_run, Hact, Hidx, Hwl, Hlv.
  - intros Hready. destruct (vote_ready_commits _ _ _ Hs Hready) as (c & Hc & Hrun).
    unfold transact. rewrite Hrun. eexists. split; [reflexivity|]. cbn.
    repeat apply conj; try reflexivity.
    intros j. destruct (decide (j = N.to_nat i)) as [->|Hne].
    + rewrite list_lookup_insert_eq by (by eapply lookup_lt_Some). by rewrite Hc.
    + rewrite list_lookup_insert_ne by done. destruct (choices s !! j) as [[]|]; reflexivity.
Qed.

(** *** A worked election *)

Lemma reachable_replay calls s :
  Forall (fun ec => valid_env ec.1) calls -> reachable s -> reachable (replay calls s).
Proof.
  revert s. induction calls as [|[env c] rest IH]; intros s Hvalid Hs; [done|].
  apply Forall_cons in Hvalid as [Henv Hrest]. cbn. apply IH; [done|].
  by apply reachable_call.
Qed.

Lemma reachable_election_open : reachable election_open.
Proof.
  apply reachable_replay; [valid_envs | apply reachable_deployed; by vm_compute].
Qed.

Lemma reachable_ballots_cast : reachable ballots_cast.
Proof. apply reachable_replay; [valid_envs | apply reachable_election_open]. Qed.

Lemma reachable_second_election : reachable second_election.
Proof. apply reachable_replay; [valid_envs | apply reachable_ballots_cast]. Qed.

Lemma vote_commits_iff_ready_witness :
  vote_ready (mkEnv voterX 110) 0 election_open /\
  exists s', transact (vote (mkEnv voterX 110) 0) election_open
               = (Success [VoteCast voterX 0], s') /\
             choices s' = [mkChoice "A" 1; mkChoice "B" 0] /\
             read_uint (lastVotedElection s') voterX = 1.
Proof.
  assert (Hready : vote_ready (mkEnv voterX 110) 0 election_open)
    by (repeat split; by vm_compute).
  split; [exact Hready|].
  destruct (vote_commits_iff_ready (mkEnv voterX 110) 0 election_open
              reachable_election_open) as (_ & _ & _ & _ & _ & Hcommit).
  destruct (Hcommit Hready) as (s' & Hrun & Hle & _).
  exists s'. split; [exact Hrun|].
  vm_compute in Hrun. injection Hrun as <-. split; by vm_compute.
Defined.

(** C2, as stated, fails: in [ballots_cast] the election is open and
    [voterX] has voted in it, yet a further [vote(7)] by [voterX] (there
    are two choices) is rejected with "Invalid choice", and after
    [endElection], still in the same election number, a further [vote(0)]
    is rejected with "Election not active"; neither is "Already voted". *)
Lemma second_vote_other_rejections :
  let env := mkEnv voterX 130 in
  let closed := after (mkEnv 1 200) CallEndElection ballots_cast in
  reachable ballots_cast /\
  read_uint (lastVotedElection ballots_cast) (msg_sender env) = electionId ballots_cast /\
  transact (vote env 7) ballots_cast = (Reverted (Error "Invalid choice"), ballots_cast) /\
  transact (vote env 7) ballots_cast <> (Reverted (Error "Already voted"), ballots_cast) /\
  reachable closed /\
  read_uint (lastVotedElection closed) (msg_sender env) = electionId closed /\
  transact (vote env 0) closed = (Reverted (Error "Election not active"), closed) /\
  transact (vote env 0) closed <> (Reverted (Error "Already voted"), closed).
Proof.
  cbn zeta. repeat apply conj.
  - apply reachable_ballots_cast.
  - by vm_compute.
  - by vm_compute.
  - by vm_compute.
  - apply reachable_call; [by vm_compute | apply reachable_ballots_cast].
  - by vm_compute.
  - by vm_compute.
  - by vm_compute.
Qed.

(** C2, amended: when the caller's last voted election is the current
    one, every further [vote(i)] is rejected and leaves the storage as it
    was. While the election is open and [i] is below the number of
    choices the rejection is "Already voted"; an [i] out of range is
    rejected with "Invalid choice" and a call outside an open election
    with "Election not active", because those checks come first. *)
Theorem second_vote_rejected env i s :
  reachable s ->
  read_uint (lastVotedElection s) (msg_sender env) = electionId s ->
  (exists reason, transact (vote env i) s = (Reverted (Error reason), s))
  /\ (electionActive s = true -> i < N.of_nat (length (choices s)) ->
      transact (vote env i) s = (Reverted (Error "Already voted"), s))
  /\ (electionActive s = true -> N.of_nat (length (choices s)) <= i ->
      transact (vote env i) s = (Reverted (Error "Invalid choice"), s))
  /\ (electionActive s = false ->
      transact (vote env i) s = (Reverted (Error "Election not active"), s)).
Proof.
  intros Hs%reachable_consistent Hvoted. repeat apply conj.
  - destruct (vote_not_ready_reverts env i s) as [reason Hrev].
    + intros (_ & _ & _ & Hlv). lia.
    + exists reason. unfold transact. by rewrite Hrev.
  - intros Hact Hidx%N.ltb_lt. unfold transact.
    rewrite vote_run, Hact, Hidx, (voted_whitelisted _ Hs Hact _ Hvoted), Hvoted.
    by rewrite N.ltb_irrefl.
  - intros Hact Hidx%N.ltb_ge. unfold transact. by rewrite vote_run, Hact, Hidx.
  - intros Hact. unfold transact. by rewrite vote_run, Hact.
Qed.

Lemma second_vote_rejected_witness :
  transact (vote (mkEnv voterX 130) 1) ballots_cast
    = (Reverted (Error "Already voted"), ballots_cast).
Proof.
  destruct (second_vote_rejected (mkEnv voterX 130) 1 ballots_cast
              reachable_ballots_cast) as (_ & Hvoted & _).
  - by vm_compute.
  - apply Hvoted; by vm_compute.
Defined.

(** ** Elections in sequence *)

(** C5: a ledger entry of an earlier election does not count in a later
    one and does not block it. A committed [startElection] leaves every
    counter at zero under the next election number; a caller whose last
    voted election [e1] is older than the current election [e2] is never
    rejected with "Already voted", and commits whenever the election is
    open, the index is in range and the caller is whitelisted; and no call
    removes a ledger entry: a call changes at most the caller's own entry,
    and only [vote] does. *)
Theorem past_vote_neither_counts_nor_blocks env i s e1 e2 :
  reachable s ->
  read_uint (lastVotedElection s) (msg_sender env) = e1 ->
  electionId s = e2 ->
  e1 < e2 ->
  (forall admin s0 events, transact (startElection admin) s0 = (Success events, s) ->
     electionId s = electionId s0 + 1 /\
     forall j c, choices s !! j = Some c -> votes c = 0)
  /\ (forall reason, transact (vote env i) s = (Reverted (Error reason), s) ->
        reason <> "Already voted")
  /\ (electionActive s = true -> i < N.of_nat (length (choices s)) ->
      read_flag (isWhitelisted s) (msg_sender env) = true ->
      exists s', transact (vote env i) s = (Success [VoteCast (msg_sender env) i], s'))
  /\ (forall caller c a,
        is_Some (lastVotedElection s !! a) ->
        is_Some (lastVotedElection (after caller c s) !! a))
  /\ (forall caller c a,
        ((forall k, c <> CallVote k) \/ a <> msg_sender caller) ->
        lastVotedElection (after caller c s) !! a = lastVotedElection s !! a /\
        lastVotedChoice (after caller c s) !! a = lastVotedChoice s !! a /\
        lastVotedAt (after caller c s) !! a = lastVotedAt s !! a).
Proof.
  intros Hs%reachable_consistent He1 He2 Hlt. repeat apply conj.
  - intros admin s0 events. unfold transact. rewrite startElection_run.
    destruct (negb (_ =? _)); [done|]. destruct (electionActive s0); [done|].
    destruct (negb (0 <? N.of_nat _)); [done|].
    destruct (negb (0 <? _activeWhitelistCount s0)); [done|].
    destruct (_ <=? _); [|done]. intros [= _ <-]. cbn. split; [done|].
    intros j c Hc. unfold zeroed in Hc. rewrite list_lookup_fmap in Hc.
    destruct (choices s0 !! j); [|done]. by injection Hc as <-.
  - intros reason. unfold transact. rewrite vote_run.
    destruct (negb (electionActive s)); [by intros [= <-]|].
    destruct (negb (i <? _)); [by intros [= <-]|].
    destruct (negb (read_flag _ _)); [by intros [= <-]|].
    assert (Hlv : (read_uint (lastVotedElection s) (msg_sender env) <? electionId s) = true)
      by (apply N.ltb_lt; lia).
    rewrite Hlv. cbn.
    destruct (choices s !! N.to_nat i) as [c|]; [|done].
    by destruct (_ <=? _).
  - intros Hact Hidx Hwl.
    destruct (vote_ready_commits env i s Hs) as (c & _ & Hrun).
    + repeat split; [done|done|done|lia].
    + unfold transact. rewrite Hrun. by eexists.
  - intros caller c a Ha. unfold after, transact.
    destruct c as [title|labels|voters|voter|voter| | |k]; cbn [dispatch].
    + rewrite setPollTitle_run. branches.
    + rewrite setChoices_run. branches.
    + rewrite setWhitelist_run. branches.
    + rewrite addToWhitelist_run. branches.
    + rewrite removeFromWhitelist_run. branches.
    + rewrite startElection_run. branches.
    + rewrite endElection_run. branches.
    + rewrite vote_run. branches.
      rewrite lookup_insert. case_decide; [by eexists|done].
  - intros caller c a Hother. unfold after, transact.
    destruct c as [title|labels|voters|voter|voter| | |k]; cbn [dispatch].
    + rewrite setPollTitle_run. branches.
    + rewrite setChoices_run. branches.
    + rewrite setWhitelist_run. branches.
    + rewrite addToWhitelist_run. branches.
    + rewrite removeFromWhitelist_run. branches.
    + rewrite startElection_run. branches.
    + rewrite endElection_run. branches.
    + destruct Hother as [Hno|Hne]; [by destruct (Hno k)|].
      rewrite vote_run. branches.
      by rewrite !lookup_insert_ne.
Qed.

Lemma past_vote_neither_counts_nor_blocks_witness :
  (forall j c, choices second_election !! j = Some c -> votes c = 0) /\
  exists s', transact (vote (mkEnv voterX 310) 1) second_election
               = (Success [VoteCast voterX 1], s').
Proof.
  destruct (past_vote_neither_counts_nor_blocks (mkEnv voterX 310) 1 second_election 1 2
              reachable_second_election) as (Hzero & _ & Hcommit & _).
  - by vm_compute.
  - by vm_compute.
  - by vm_compute.
  - split.
    + apply (Hzero (mkEnv 1 300) (after (mkEnv 1 200) CallEndElection ballots_cast)
               [ElectionStarted 300]).
      by vm_compute.
    + apply Hcommit; by vm_compute.
Defined.

(** ** The election life cycle *)

Lemma count_active_acc flags addrs n :
  count_active flags addrs n = n + count_active flags addrs 0.
Proof.
  revert n. induction addrs as [|a rest IH]; intros n; cbn; [lia|].
  destruct (read_flag flags a); [|apply IH].
  rewrite (IH (n + 1)), (IH (0 + 1)). lia.
Qed.

Lemma count_active_positive flags addrs :
  0 < count_active flags addrs 0 <-> exists a, a ∈ addrs /\ read_flag flags a = true.
Proof.
  induction addrs as [|b rest IH]; cbn.
  - split; [lia|]. intros (a & Ha & _). by apply elem_of_nil in Ha.
  - destruct (read_flag flags b) eqn:Hb.
    + rewrite count_active_acc. split; [|lia]. intros _. exists b. split; [by left|done].
    + rewrite IH. split; intros (a & Ha & Hflag).
      * exists a. split; [by right|done].
      * exists a. split; [|done]. apply elem_of_cons in Ha as [->|Ha]; [congruence|done].
Qed.

(** C3: [startElection] checks, in this order, that the caller is the
    owner ("Only owner"), that no election is open ("Election already
    active"), that there is a choice ("No choices") and that some identity
    is currently whitelisted ("No voters"); a failed check leaves the
    storage, and so the election number, as it was. Otherwise, below the
    largest election number, it commits: every counter is zero with its
    label kept, the election number is one more, the election is open, the
    start time is the block time, the end time is cleared, and nothing
    else changes. *)
Theorem startElection_lifecycle env s :
  reachable s ->
  (msg_sender env <> owner s ->
     transact (startElection env) s = (Reverted (Error "Only owner"), s))
  /\ (msg_sender env = owner s -> electionActive s = true ->
      transact (startElection env) s = (Reverted (Error "Election already active"), s))
  /\ (msg_sender env = owner s -> electionActive s = false -> choices s = [] ->
      transact (startElection env) s = (Reverted (Error "No choices"), s))
  /\ (msg_sender env = owner s -> electionActive s = false -> choices s <> [] ->
      (forall a, read_flag (isWhitelisted s) a = false) ->
      transact (startElection env) s = (Reverted (Error "No voters"), s))
  /\ (msg_sender env = owner s -> electionActive s = false -> choices s <> [] ->
      (exists a, read_flag (isWhitelisted s) a = true) ->
      electionId s < MAX_UINT256 ->
      exists s', transact (startElection env) s
                   = (Success [ElectionStarted (block_timestamp env)], s') /\
        electionActive s' = true /\
        electionId s' = electionId s + 1 /\
        electionStart s' = block_timestamp env /\
        electionEnd s' = 0 /\
        choices s' = map (fun c => mkChoice (label c) 0) (choices s) /\
        owner s' = owner s /\ pollTitle s' = pollTitle s /\
        whitelistAddresses s' = whitelistAddresses s /\
        isWhitelisted s' = isWhitelisted s /\
        lastVotedElection s' = lastVotedElection s /\
        lastVotedChoice s' = lastVotedChoice s /\
        lastVotedAt s' = lastVotedAt s)
  /\ (forall f s', transact (startElection env) s = (Reverted f, s') ->
        s' = s /\ electionId s' = electionId s).
Proof.
  intros Hs%reachable_consistent. unfold transact. rewrite startElection_run.
  repeat apply conj.
  - intros Hne%N.eqb_neq. by rewrite Hne.
  - intros Hown%N.eqb_eq Hact. by rewrite Hown, Hact.
  - intros Hown%N.eqb_eq Hact Hnil. by rewrite Hown, Hact, Hnil.
  - intros Hown%N.eqb_eq Hact Hcs Hnone. rewrite Hown, Hact. cbn.
    destruct (choices s) as [|c cs]; [done|]. cbn.
    destruct (0 <? _activeWhitelistCount s) eqn:Hcount; [|done].
    apply N.ltb_lt, count_active_positive in Hcount as (a & _ & Ha).
    by rewrite Hnone in Ha.
  - intros Hown%N.eqb_eq Hact Hcs (a & Ha) Hid. rewrite Hown, Hact. cbn.
    destruct (choices s) as [|c cs] eqn:Hchoices; [done|]. cbn.
    assert (Hcount : (0 <? _activeWhitelistCount s) = true).
    { apply N.ltb_lt, count_active_positive. exists a. split; [|done].
      by apply (whitelist_tracked _ Hs). }
    rewrite Hcount. cbn.
    assert (Hroom : (electionId s + 1 <=? MAX_UINT256) = true) by (apply N.leb_le; lia).
    rewrite Hroom. eexists. split; [reflexivity|]. by cbn.
  - intros f s'. repeat case_match; intros [= _ <-]; done.
Qed.

Lemma startElection_lifecycle_witness :
  transact (startElection deployer) (constructor deployer)
    = (Reverted (Error "No choices"), constructor deployer) /\
  electionId (after deployer CallStartElection (constructor deployer)) = 0 /\
  exists s', transact (startElection (mkEnv 1 300))
               (after (mkEnv 1 200) CallEndElection ballots_cast)
               = (Success [ElectionStarted 300], s') /\
             electionId s' = 2 /\
             choices s' = [mkChoice "A" 0; mkChoice "B" 0].
Proof.
  split; [|split].
  - apply (startElection_lifecycle deployer (constructor deployer)); try done.
    apply reachable_deployed. by vm_compute.
  - by vm_compute.
  - destruct (startElection_lifecycle (mkEnv 1 300)
                (after (mkEnv 1 200) CallEndElection ballots_cast))
      as (_ & _ & _ & _ & Hcommit & _).
    + apply reachable_call; [by vm_compute | apply reachable_ballots_cast].
    + destruct Hcommit as (s' & Hrun & _ & Hid & _ & _ & Hcs & _).
      * by vm_compute.
      * by vm_compute.
      * by vm_compute.
      * exists voterX. by vm_compute.
      * by vm_compute.
      * exists s'. split; [exact Hrun|]. split; [by rewrite Hid|by rewrite Hcs].
Defined.

(** C9: [endElection] needs the caller to be the owner ("Only owner") and
    the election to be open ("Election already ended"); when it commits
    the election is closed and the end time is the block time, while the
    election number, the choices with their counters, the whitelist, the
    ledger and every other field are as before. *)
Theorem endElection_only_closes env s :
  (msg_sender env <> owner s ->
     transact (endElection env) s = (Reverted (Error "Only owner"), s))
  /\ (msg_sender env = owner s -> electionActive s = false ->
      transact (endElection env) s = (Reverted (Error "Election already ended"), s))
  /\ (msg_sender env = owner s -> electionActive s = true ->
      exists s', transact (endElection env) s
                   = (Success [ElectionEnded (block_timestamp env)], s') /\
        electionActive s' = false /\
        electionEnd s' = block_timestamp env /\
        electionId s' = electionId s /\
        choices s' = choices s /\
        whitelistAddresses s' = whitelistAddresses s /\
        isWhitelisted s' = isWhitelisted s /\
        lastVotedElection s' = lastVotedElection s /\
        lastVotedChoice s' = lastVotedChoice s /\
        lastVotedAt s' = lastVotedAt s /\
        owner s' = owner s /\ pollTitle s' = pollTitle s /\
        electionStart s' = electionStart s).
Proof.
  unfold transact. rewrite endElection_run. repeat apply conj.
  - intros Hne%N.eqb_neq. by rewrite Hne.
  - intros Hown%N.eqb_eq Hact. by rewrite Hown, Hact.
  - intros Hown%N.eqb_eq Hact. rewrite Hown, Hact. cbn. eexists. by split.
Qed.

Lemma endElection_only_closes_witness :
  exists s', transact (endElection (mkEnv 1 200)) ballots_cast
               = (Success [ElectionEnded 200], s') /\
             electionActive s' = false /\ electionEnd s' = 200 /\
             electionId s' = 1 /\
             choices s' = [mkChoice "A" 1; mkChoice "B" 1].
Proof.
  destruct (endElection_only_closes (mkEnv 1 200) ballots_cast) as (_ & _ & Hcommit).
  destruct Hcommit as (s' & Hrun & Hact & Hend & Hid & Hcs & _); [by vm_compute ..|].
  exists s'. split; [exact Hrun|]. rewrite Hact, Hend, Hid, Hcs. by vm_compute.
Defined.

(** ** The whitelist *)

(** C10: a committed [removeFromWhitelist] was called on a whitelisted
    identity and clears that identity's flag and nothing else: the
    enumeration array and so [whitelistCount] are as before,
    [whitelistEntry] at every index holding the identity still returns it,
    now inactive, and the flags of the other identities, the three ledger
    mappings and all other fields are untouched. *)
Theorem removeFromWhitelist_only_clears_flag env voter s events s' :
  transact (removeFromWhitelist env voter) s = (Success events, s') ->
  events = [WhitelistRemoved voter] /\
  read_flag (isWhitelisted s) voter = true /\
  read_flag (isWhitelisted s') voter = false /\
  (forall a, a <> voter -> isWhitelisted s' !! a = isWhitelisted s !! a) /\
  whitelistAddresses s' = whitelistAddresses s /\
  (exists n, whitelistCount s = Done n s [] /\ whitelistCount s' = Done n s' []) /\
  (forall k, whitelistAddresses s !! k = Some voter ->
     whitelistEntry (N.of_nat k) s = Done (voter, true) s [] /\
     whitelistEntry (N.of_nat k) s' = Done (voter, false) s' []) /\
  lastVotedElection s' = lastVotedElection s /\
  lastVotedChoice s' = lastVotedChoice s /\
  lastVotedAt s' = lastVotedAt s /\
  owner s' = owner s /\ electionActive s' = electionActive s /\
  electionStart s' = electionStart s /\ electionEnd s' = electionEnd s /\
  pollTitle s' = pollTitle s /\ electionId s' = electionId s /\
  choices s' = choices s.
Proof.
  unfold transact. rewrite removeFromWhitelist_run.
  destruct (negb (msg_sender env =? owner s)); [done|].
  destruct (electionActive s) eqn:Hact; [done|].
  destruct (read_flag (isWhitelisted s) voter) eqn:Hflag; [|done].
  cbn [negb]. intros [= <- <-]. cbn. repeat apply conj; try done.
  - unfold read_flag. by rewrite lookup_insert_eq.
  - intros a Hne. by rewrite lookup_insert_ne.
  - by eexists.
  - intros k Hk. pose proof (lookup_lt_Some _ _ _ Hk) as Hlen.
    assert (Hidx : (N.of_nat k <? N.of_nat (length (whitelistAddresses s))) = true)
      by (apply N.ltb_lt; lia).
    unfold whitelistEntry. unfold_monad. cbn.
    rewrite Hidx, Nat2N.id, Hk. cbn. rewrite Hflag, Hk.
    unfold read_flag. by rewrite lookup_insert_eq.
Qed.

Lemma removeFromWhitelist_only_clears_flag_witness :
  let s := after (mkEnv 1 200) CallEndElection ballots_cast in
  let s' := after (mkEnv 1 210) (CallRemoveFromWhitelist voterX) s in
  whitelistAddresses s' = whitelistAddresses s /\
  whitelistEntry 0 s' = Done (voterX, false) s' [] /\
  lastVotedElection s' = lastVotedElection s.
Proof.
  cbn zeta.
  destruct (removeFromWhitelist_only_clears_flag (mkEnv 1 210) voterX
              (after (mkEnv 1 200) CallEndElection ballots_cast)
              [WhitelistRemoved voterX]
              (after (mkEnv 1 210) (CallRemoveFromWhitelist voterX)
                 (after (mkEnv 1 200) CallEndElection ballots_cast)))
    as (_ & _ & _ & _ & Harr & _ & Hentry & Hledger & _); [by vm_compute|].
  split; [exact Harr|]. split; [|exact Hledger].
  apply (Hentry 0%nat). by vm_compute.
Defined.

(** C6 does not hold of the code: [addToWhitelist] guards the push by the
    membership flag, not by membership of the array, so adding an identity
    that was added and then removed pushes it a second time. The owner
    calls [addToWhitelist(voterX)], [removeFromWhitelist(voterX)],
    [addToWhitelist(voterX)] on the deployed contract: the enumeration
    array is then [voterX; voterX], [whitelistCount] is 2 and
    [_activeWhitelistCount] counts the one whitelisted identity twice. *)
Lemma readded_identity_is_enumerated_twice :
  let s := replay [(deployer, CallAddToWhitelist voterX);
                   (deployer, CallRemoveFromWhitelist voterX);
                   (deployer, CallAddToWhitelist voterX)] (constructor deployer) in
  reachable s /\
  whitelistAddresses s = [voterX; voterX] /\
  ~ NoDup (whitelistAddresses s) /\
  whitelistCount s = Done 2 s [] /\
  whitelistEntry 0 s = Done (voterX, true) s [] /\
  whitelistEntry 1 s = Done (voterX, true) s [] /\
  _activeWhitelistCount s = 2.
Proof.
  cbn zeta. repeat apply conj; try by vm_compute.
  - apply reachable_replay; [valid_envs | apply reachable_deployed; by vm_compute].
  - change (~ NoDup [voterX; voterX]). intros Hdup.
    apply NoDup_cons in Hdup as [Hnotin _]. apply Hnotin. by left.
Qed.

(** ** Replacement of the configuration *)

Lemma replay_committed_last calls env c s s' :
  replay_committed (calls ++ [(env, c)]) s = Some s' ->
  exists s0 events, replay_committed calls s = Some s0 /\
                    transact (dispatch env c) s0 = (Success events, s').
Proof.
  revert s. induction calls as [|[env0 c0] rest IH]; intros s; cbn.
  - destruct (transact (dispatch env c) s) as [[events|f] s1] eqn:Hrun; [|done].
    intros [= <-]. by exists s, events.
  - destruct (transact (dispatch env0 c0) s) as [[events|f] s1]; [|done]. apply IH.
Qed.

Lemma replay_committed_tracked calls s s' :
  tracked s -> replay_committed calls s = Some s' -> tracked s'.
Proof.
  revert s. induction calls as [|[env c] rest IH]; intros s Hs; cbn.
  - by intros [= <-].
  - pose proof (tracked_after env c s Hs) as Hnext. unfold after in Hnext.
    destruct (transact (dispatch env c) s) as [[events|f] s1]; [|done].
    by apply IH.
Qed.

Lemma read_flag_enrolled w voters a :
  read_flag (enrolled w voters).1 a = true <->
  read_flag w.1 a = true \/ a ∈ voters.
Proof.
  revert w. induction voters as [|v rest IH]; intros w; cbn.
  - split; [by left|]. intros [|Hin]; [done|]. by apply elem_of_nil in Hin.
  - rewrite IH. unfold enrol. destruct (read_flag w.1 v) eqn:Hv; cbn.
    + split; intros [|Hin]; auto.
      * right. by right.
      * apply elem_of_cons in Hin as [->|]; auto.
    + unfold read_flag at 1. destruct (decide (a = v)) as [->|Hne].
      * rewrite lookup_insert_eq. cbn. split; intros _; [right; by left | by left].
      * rewrite lookup_insert_ne by done. fold (read_flag w.1 a).
        split; intros [|Hin]; auto.
        -- right. by right.
        -- apply elem_of_cons in Hin as [|]; [done|auto].
Qed.

(** C8: the configuration calls replace, they do not merge. After any
    history of committed [setChoices] calls the choices are exactly the
    labels of the last call, in order, each with a zero counter; after any
    history of committed [setWhitelist] calls the identities whose flag is
    set are exactly those of the last call. *)
Theorem last_configuration_survives s :
  reachable s ->
  (forall (history : list (Env * list string)) env labels s',
     replay_committed
       (map (fun el => (el.1, CallSetChoices el.2)) (history ++ [(env, labels)])) s = Some s' ->
     choices s' = map (fun l => mkChoice l 0) labels)
  /\ (forall (history : list (Env * list address)) env voters s',
     replay_committed
       (map (fun ev => (ev.1, CallSetWhitelist ev.2)) (history ++ [(env, voters)])) s = Some s' ->
     forall a, read_flag (isWhitelisted s') a = true <-> a ∈ voters).
Proof.
  intros Hs%reachable_consistent. split.
  - intros history env labels s'. rewrite map_app. cbn [map fst snd].
    intros (s0 & events & _ & Hrun)%replay_committed_last.
    cbn [dispatch] in Hrun. unfold transact in Hrun. rewrite setChoices_run in Hrun.
    repeat case_match; by simplify_eq.
  - intros history env voters s'. rewrite map_app. cbn [map fst snd].
    intros (s0 & events & Hbefore & Hrun)%replay_committed_last a.
    pose proof (replay_committed_tracked _ _ _ (whitelist_tracked _ Hs) Hbefore) as Htr.
    cbn [dispatch] in Hrun. unfold transact in Hrun. rewrite setWhitelist_run in Hrun.
    repeat case_match; simplify_eq. cbn.
    rewrite read_flag_enrolled. cbn. rewrite read_flag_cleared.
    split; [|by right]. intros [Hold|]; [|done].
    destruct (decide (a ∈ whitelistAddresses s0)) as [|Hnot]; [done|].
    by apply Htr in Hold.
Qed.

Lemma last_configuration_survives_witness :
  let s1 := replay [(deployer, CallSetChoices ["A"; "B"]); (deployer, CallSetChoices ["C"])]
              (constructor deployer) in
  let s2 := replay [(deployer, CallSetWhitelist [voterX; voterY]);
                    (deployer, CallSetWhitelist [voterY])] (constructor deployer) in
  choices s1 = [mkChoice "C" 0] /\
  (read_flag (isWhitelisted s2) voterY = true <-> voterY ∈ [voterY]) /\
  (read_flag (isWhitelisted s2) voterX = true <-> voterX ∈ [voterY]).
Proof.
  cbn zeta.
  assert (Hs : reachable (constructor deployer)) by (apply reachable_deployed; by vm_compute).
  destruct (last_configuration_survives (constructor deployer) Hs) as [Hchoices Hvoters].
  split; [|split].
  - apply (Hchoices [(deployer, ["A"; "B"])] deployer ["C"]). by vm_compute.
  - apply (Hvoters [(deployer, [voterX; voterY])] deployer [voterY]). by vm_compute.
  - apply (Hvoters [(deployer, [voterX; voterY])] deployer [voterY]). by vm_compute.
Defined.

(** ** The tally *)

Lemma winner_step_first c t :
  found t = false -> leads [c] (winner_step c 0 t).
Proof.
  intros Hfound. unfold winner_step. rewrite Hfound. cbn.
  split; [done|]. exists c. cbn. repeat apply conj; try done.
  - intros [|j] d Hd; cbn in Hd; [|done]. injection Hd as <-. lia.
  - intros j d _ Hj. lia.
  - intros (j & d & Hj & Hd & _). destruct j; [done|]. by cbn in Hd.
Qed.

Lemma winner_step_next pre c t :
  leads pre t -> leads (pre ++ [c]) (winner_step c (N.of_nat (length pre)) t).
Proof.
  intros (Hfound & top & Htop & Hvotes & Hmax & Hfirst & Htie).
  pose proof (lookup_lt_Some _ _ _ Htop) as Hlt.
  unfold winner_step. rewrite Hfound. cbn [negb orb].
  destruct (topVotes t <? votes c) eqn:Hgt; [|destruct (votes c =? topVotes t) eqn:Heq].
  - apply N.ltb_lt in Hgt. split; [done|]. exists c. cbn. rewrite Nat2N.id.
    repeat apply conj; try done.
    + by rewrite lookup_app_r, Nat.sub_diag.
    + intros j d Hd. apply lookup_app_Some in Hd as [Hd|[_ Hd]].
      * specialize (Hmax _ _ Hd). lia.
      * destruct (j - length pre)%nat; [|done]. injection Hd as <-. lia.
    + intros j d Hd Hj. rewrite lookup_app_l in Hd by done. specialize (Hmax _ _ Hd). lia.
    + intros (j & d & Hj & Hd & Heq). apply lookup_app_Some in Hd as [Hd|[Hge Hd]].
      * specialize (Hmax _ _ Hd). lia.
      * destruct (j - length pre)%nat eqn:Hsub; [lia|done].
  - apply N.eqb_eq in Heq. split; [done|]. exists top. cbn.
    repeat apply conj; try done.
    + by rewrite lookup_app_l.
    + intros j d Hd. apply lookup_app_Some in Hd as [Hd|[_ Hd]]; [by eapply Hmax|].
      destruct (j - length pre)%nat; [|done]. injection Hd as <-. lia.
    + intros j d Hd Hj. rewrite lookup_app_l in Hd by lia. by eapply Hfirst.
    + intros _. exists (length pre), c. split; [lia|]. split; [|done].
      by rewrite lookup_app_r, Nat.sub_diag.
  - apply N.ltb_ge in Hgt. apply N.eqb_neq in Heq. split; [done|]. exists top.
    repeat apply conj; try done.
    + by rewrite lookup_app_l.
    + intros j d Hd. apply lookup_app_Some in Hd as [Hd|[_ Hd]]; [by eapply Hmax|].
      destruct (j - length pre)%nat; [|done]. injection Hd as <-. lia.
    + intros j d Hd Hj. rewrite lookup_app_l in Hd by lia. by eapply Hfirst.
    + intros (j & d & Hj & Hd & Hv)%Htie. exists j, d. split; [done|]. split; [|done].
      apply lookup_app_Some. by left.
    + intros (j & d & Hj & Hd & Hv). apply Htie.
      apply lookup_app_Some in Hd as [Hd|[_ Hd]]; [by exists j, d|].
      destruct (j - length pre)%nat; [|done]. injection Hd as <-. lia.
Qed.

Lemma winner_scan_leads cs pre t :
  leads pre t -> leads (pre ++ cs) (winner_scan cs (N.of_nat (length pre)) t).
Proof.
  revert pre t. induction cs as [|c rest IH]; intros pre t Hleads; cbn.
  - by rewrite app_nil_r.
  - replace (N.of_nat (length pre) + 1) with (N.of_nat (length (pre ++ [c])))
      by (rewrite length_app; cbn; lia).
    rewrite cons_middle, app_assoc. apply IH. by apply winner_step_next.
Qed.

(** C4: [getWinner] never reverts and returns the storage it was given,
    whether the election is open or not. Without choices it returns
    [(0, "", 0, false, false)]. Otherwise it returns, with [hasWinner]
    set, the index [k] of the first choice holding the largest counter,
    that choice's label and counter, and [hasTie] is set exactly when a
    choice at another index holds the same counter. *)
Theorem getWinner_first_maximum s :
  (choices s = [] -> getWinner s = Done (0, "", 0, false, false) s [])
  /\ (choices s <> [] ->
      exists k c hasTie,
        getWinner s = Done (N.of_nat k, label c, votes c, hasTie, true) s [] /\
        choices s !! k = Some c /\
        (forall j d, choices s !! j = Some d -> votes d <= votes c) /\
        (forall j d, choices s !! j = Some d -> (j < k)%nat -> votes d < votes c) /\
        (hasTie = true <->
           exists j d, j <> k /\ choices s !! j = Some d /\ votes d = votes c)).
Proof.
  unfold getWinner. unfold_monad. split.
  - intros ->. reflexivity.
  - destruct (choices s) as [|c0 rest] eqn:Hcs; [done|]. intros _.
    cbn [winner_scan].
    pose proof (winner_scan_leads rest [c0] _
                  (winner_step_first c0 (mkLeader 0 0 false false) eq_refl)) as Hleads.
    cbn [app length] in Hleads. change (N.of_nat 1) with (0 + 1) in Hleads.
    set (t := winner_scan rest (0 + 1) (winner_step c0 0 (mkLeader 0 0 false false))) in *.
    destruct Hleads as (Hfound & c & Hc & Hvotes & Hmax & Hfirst & Htie).
    rewrite Hfound. cbn [negb]. rewrite Hc.
    exists (N.to_nat (topIndex t)), c, (tie t).
    rewrite N2Nat.id, <- Hvotes. cbn. rewrite <- Hvotes in Hmax, Hfirst, Htie.
    do 4 (split; [done|]). exact Htie.
Qed.

Lemma getWinner_first_maximum_witness :
  getWinner ballots_cast = Done (0, "A", 1, true, true) ballots_cast [] /\
  getWinner (constructor deployer) = Done (0, "", 0, false, false) (constructor deployer) [].
Proof.
  destruct (getWinner_first_maximum ballots_cast) as [_ Hsome].
  destruct (getWinner_first_maximum (constructor deployer)) as [Hnone _].
  split; [|by apply Hnone].
  destruct Hsome as (k & c & hasTie & Hrun & _); [by vm_compute|].
  rewrite Hrun. vm_compute in Hrun. by injection Hrun as -> -> -> ->.
Defined.

(** The standings [3; 3; 1] are reported as index 0 with 3 votes and a tie. *)
Example getWinner_3_3_1 s labelA labelB labelC :
  choices s = [mkChoice labelA 3; mkChoice labelB 3; mkChoice labelC 1] ->
  getWinner s = Done (0, labelA, 3, true, true) s [].
Proof. intros Hcs. unfold getWinner. unfold_monad. by rewrite Hcs. Qed.

(** ** Atomicity of the calls *)

Lemma blank_label_rejected labels : "" ∈ labels -> forallb nonblank labels = false.
Proof.
  induction labels as [|l rest IH]; intros Hin; [by apply elem_of_nil in Hin|].
  cbn. apply elem_of_cons in Hin as [<-|Hin]; [done|].
  rewrite (IH Hin). apply andb_false_r.
Qed.

Lemma zero_voter_rejected voters : 0 ∈ voters -> forallb nonzero voters = false.
Proof.
  induction voters as [|v rest IH]; intros Hin; [by apply elem_of_nil in Hin|].
  cbn. apply elem_of_cons in Hin as [<-|Hin]; [done|].
  rewrite (IH Hin). apply andb_false_r.
Qed.

(** C7, as stated, fails: [setChoices] and [setWhitelist] validate each
    element inside the loop that writes it, after the previous list has
    been cleared. With choices A, B and whitelist X, Y configured,
    [setChoices(["C"; ""])] meets "Empty choice" when the stored choices
    are already [C], and [setWhitelist([voterY; 0])] meets "Invalid voter"
    when the flag of [voterX] is already cleared and the array is
    [voterY]. Only the revert of the transaction restores the storage. *)
Lemma element_checks_follow_writes :
  reachable configured /\
  (exists s', setChoices deployer ["C"; ""] configured = Revert (Error "Empty choice") s' /\
              choices configured = [mkChoice "A" 0; mkChoice "B" 0] /\
              choices s' = [mkChoice "C" 0]) /\
  ~ checks_before_writes (setChoices deployer ["C"; ""]) /\
  (exists s', setWhitelist deployer [voterY; 0] configured
                = Revert (Error "Invalid voter") s' /\
              whitelistAddresses configured = [voterX; voterY] /\
              whitelistAddresses s' = [voterY] /\
              read_flag (isWhitelisted configured) voterX = true /\
              read_flag (isWhitelisted s') voterX = false) /\
  ~ checks_before_writes (setWhitelist deployer [voterY; 0]).
Proof.
  repeat apply conj.
  - apply reachable_replay; [valid_envs | apply reachable_deployed; by vm_compute].
  - eexists. split; [by vm_compute|]. split; by vm_compute.
  - intros Hchecks.
    assert (Hrun : setChoices deployer ["C"; ""] configured
                   = Revert (Error "Empty choice") (set_choices configured [mkChoice "C" 0]))
      by (by vm_compute).
    apply Hchecks in Hrun. apply (f_equal choices) in Hrun. by vm_compute in Hrun.
  - eexists. split; [by vm_compute|]. repeat split; by vm_compute.
  - intros Hchecks.
    assert (Hrun : exists s', setWhitelist deployer [voterY; 0] configured
                     = Revert (Error "Invalid voter") s' /\ whitelistAddresses s' = [voterY]).
    { eexists. split; by vm_compute. }
    destruct Hrun as (s' & Hrun & Harr). apply Hchecks in Hrun. subst s'.
    by vm_compute in Harr.
Qed.

(** C7, amended: a call either commits or is rejected with the storage
    exactly as it was before the call. Every failed [require] is met before
    the first write, except "Empty choice" in [setChoices] and "Invalid
    voter" in [setWhitelist], which are met inside the writing loop and
    whose partial writes the revert discards; so a blank label or a zero
    identity anywhere in the list makes the call fail and leaves the
    previous choices and whitelist intact. *)
Theorem rejected_calls_change_nothing env c s :
  (forall f s', transact (dispatch env c) s = (Reverted f, s') -> s' = s)
  /\ (forall reason s', dispatch env c s = Revert (Error reason) s' ->
        s' = s
        \/ ((exists labels, c = CallSetChoices labels) /\ reason = "Empty choice")
        \/ ((exists voters, c = CallSetWhitelist voters) /\ reason = "Invalid voter"))
  /\ (forall labels, c = CallSetChoices labels -> "" ∈ labels ->
        exists f, transact (dispatch env c) s = (Reverted f, s))
  /\ (forall voters, c = CallSetWhitelist voters -> 0 ∈ voters ->
        exists f, transact (dispatch env c) s = (Reverted f, s)).
Proof.
  repeat apply conj.
  - intros f s'. unfold transact. destruct (dispatch env c s); by intros [= _ <-].
  - intros reason s'.
    destruct c as [title|labels|voters|voter|voter| | |i]; cbn [dispatch].
    + rewrite setPollTitle_run. repeat case_match; intros [= <- <-]; by left.
    + rewrite setChoices_run. repeat case_match; intros [= <- <-]; try by left.
      right. left. split; [by eexists|done].
    + rewrite setWhitelist_run. repeat case_match; intros [= <- <-]; try by left.
      right. right. split; [by eexists|done].
    + rewrite addToWhitelist_run. repeat case_match; intros [= <- <-]; by left.
    + rewrite removeFromWhitelist_run. repeat case_match; intros [= <- <-]; by left.
    + rewrite startElection_run. repeat case_match; intros [= <- <-]; by left.
    + rewrite endElection_run. repeat case_match; intros [= <- <-]; by left.
    + rewrite vote_run. repeat case_match; intros [= <- <-]; by left.
  - intros labels -> Hblank%blank_label_rejected. cbn [dispatch]. unfold transact.
    rewrite setChoices_run, Hblank. repeat case_match; simplify_eq; by eexists.
  - intros voters -> Hzero%zero_voter_rejected. cbn [dispatch]. unfold transact.
    rewrite setWhitelist_run, Hzero. repeat case_match; simplify_eq; by eexists.
Qed.

Lemma rejected_calls_change_nothing_witness :
  (exists f, transact (setChoices deployer ["C"; ""]) configured = (Reverted f, configured)) /\
  (exists f, transact (setWhitelist deployer [voterY; 0]) configured
             = (Reverted f, configured)).
Proof.
  split.
  - destruct (rejected_calls_change_nothing deployer (CallSetChoices ["C"; ""]) configured)
      as (_ & _ & Hchoices & _).
    apply (Hchoices ["C"; ""] eq_refl). right. by left.
  - destruct (rejected_calls_change_nothing deployer (CallSetWhitelist [voterY; 0]) configured)
      as (_ & _ & _ & Hvoters).
    apply (Hvoters [voterY; 0] eq_refl). right. by left.
Defined.

(** ** Further properties of the contract *)

(** *** Read accessors and their bounds *)

(** X1: [setPollTitle] needs the owner ("Only owner") and a closed election
    ("Election active"); it accepts any title, the empty one included, and
    a commit changes the title and nothing else. *)
Theorem setPollTitle_only_sets_title env title s :
  (msg_sender env <> owner s ->
     transact (setPollTitle env title) s = (Reverted (Error "Only owner"), s))
  /\ (msg_sender env = owner s -> electionActive s = true ->
      transact (setPollTitle env title) s = (Reverted (Error "Election active"), s))
  /\ (msg_sender env = owner s -> electionActive s = false ->
      transact (setPollTitle env title) s
        = (Success [PollTitleSet title], set_pollTitle s title)
      /\ pollTitle (set_pollTitle s title) = title
      /\ choices (set_pollTitle s title) = choices s
      /\ electionId (set_pollTitle s title) = electionId s
      /\ whitelistAddresses (set_pollTitle s title) = whitelistAddresses s
      /\ isWhitelisted (set_pollTitle s title) = isWhitelisted s
      /\ lastVotedElection (set_pollTitle s title) = lastVotedElection s).
Proof.
  unfold transact. rewrite setPollTitle_run. repeat apply conj.
  - intros Hne%N.eqb_neq. by rewrite Hne.
  - intros Hown%N.eqb_eq Hact. by rewrite Hown, Hact.
  - intros Hown%N.eqb_eq Hact. rewrite Hown, Hact. by cbn.
Qed.

Lemma setPollTitle_only_sets_title_witness :
  transact (setPollTitle deployer "") configured
    = (Success [PollTitleSet ""], set_pollTitle configured "").
Proof.
  destruct (setPollTitle_only_sets_title deployer "" configured) as (_ & _ & Hcommit).
  apply Hcommit; by vm_compute.
Defined.

(** X2: [choiceInfo] is rejected with "Invalid choice" exactly for the indices
    from [choiceCount] on, and otherwise returns the label and the counter
    stored at that index; it never fails on the array access. *)
Theorem choiceInfo_in_range_only i s :
  (exists n, choiceCount s = Done n s [] /\ n = N.of_nat (length (choices s)))
  /\ (N.of_nat (length (choices s)) <= i ->
      choiceInfo i s = Revert (Error "Invalid choice") s)
  /\ (i < N.of_nat (length (choices s)) ->
      exists c, choices s !! N.to_nat i = Some c /\
                choiceInfo i s = Done (label c, votes c) s []).
Proof.
  unfold choiceInfo, choiceCount. unfold_monad. repeat apply conj.
  - by eexists.
  - intros Hge%N.ltb_ge. by rewrite Hge.
  - intros Hlt. destruct (lookup_lt_is_Some_2 (choices s) (N.to_nat i)) as [c Hc]; [lia|].
    apply N.ltb_lt in Hlt. exists c. by rewrite Hlt, Hc.
Qed.

Lemma choiceInfo_in_range_only_witness :
  choiceInfo 2 ballots_cast = Revert (Error "Invalid choice") ballots_cast /\
  choiceInfo 1 ballots_cast = Done ("B", 1) ballots_cast [].
Proof.
  destruct (choiceInfo_in_range_only 2 ballots_cast) as (_ & Hout & _).
  destruct (choiceInfo_in_range_only 1 ballots_cast) as (_ & _ & Hin).
  split; [apply Hout; by vm_compute|].
  destruct Hin as (c & Hc & Hrun); [by vm_compute|].
  rewrite Hrun. vm_compute in Hc. by injection Hc as <-.
Defined.

(** X3: [whitelistEntry] is rejected with "Invalid voter" exactly for the
    indices from [whitelistCount] on, and otherwise returns the identity
    stored at that index of the enumeration array with its current flag. *)
Theorem whitelistEntry_in_range_only i s :
  (N.of_nat (length (whitelistAddresses s)) <= i ->
     whitelistEntry i s = Revert (Error "Invalid voter") s)
  /\ (i < N.of_nat (length (whitelistAddresses s)) ->
      exists a, whitelistAddresses s !! N.to_nat i = Some a /\
                whitelistEntry i s = Done (a, read_flag (isWhitelisted s) a) s []).
Proof.
  unfold whitelistEntry. unfold_monad. split.
  - intros Hge%N.ltb_ge. by rewrite Hge.
  - intros Hlt.
    destruct (lookup_lt_is_Some_2 (whitelistAddresses s) (N.to_nat i)) as [a Ha]; [lia|].
    apply N.ltb_lt in Hlt. exists a. by rewrite Hlt, Ha.
Qed.

Lemma whitelistEntry_in_range_only_witness :
  whitelistEntry 2 ballots_cast = Revert (Error "Invalid voter") ballots_cast /\
  whitelistEntry 1 ballots_cast = Done (voterY, true) ballots_cast [].
Proof.
  destruct (whitelistEntry_in_range_only 2 ballots_cast) as (Hout & _).
  destruct (whitelistEntry_in_range_only 1 ballots_cast) as (_ & Hin).
  split; [apply Hout; by vm_compute|].
  destruct Hin as (a & Ha & Hrun); [by vm_compute|].
  rewrite Hrun. vm_compute in Ha. injection Ha as <-. by vm_compute.
Defined.

(** X4: Enumerating [whitelistEntry] below [whitelistCount] finds every
    identity that is currently whitelisted, and only those are returned
    as active. *)
Theorem whitelisted_are_enumerated s a :
  reachable s ->
  read_flag (isWhitelisted s) a = true <->
  exists k, k < N.of_nat (length (whitelistAddresses s)) /\
            whitelistEntry k s = Done (a, true) s [].
Proof.
  intros Hs%reachable_consistent. split.
  - intros Hflag. pose proof (whitelist_tracked _ Hs a Hflag) as Hin.
    apply list_elem_of_lookup in Hin as [k Hk].
    pose proof (lookup_lt_Some _ _ _ Hk) as Hlen.
    exists (N.of_nat k). split; [lia|].
    assert (Hidx : (N.of_nat k <? N.of_nat (length (whitelistAddresses s))) = true)
      by (apply N.ltb_lt; lia).
    unfold whitelistEntry. unfold_monad. by rewrite Hidx, Nat2N.id, Hk, Hflag.
  - intros (k & Hlt & Hrun). unfold whitelistEntry in Hrun. unfold_monad.
    apply N.ltb_lt in Hlt. rewrite Hlt in Hrun.
    destruct (whitelistAddresses s !! N.to_nat k) as [b|]; [|done].
    by injection Hrun as -> ->.
Qed.

Lemma whitelisted_are_enumerated_witness :
  read_flag (isWhitelisted ballots_cast) voterY = true <->
  exists k, k < N.of_nat (length (whitelistAddresses ballots_cast)) /\
            whitelistEntry k ballots_cast = Done (voterY, true) ballots_cast [].
Proof. apply (whitelisted_are_enumerated ballots_cast voterY reachable_ballots_cast). Defined.

(** *** The voter status *)

Ltac by_call c :=
  unfold after, transact;
  destruct c as [?title|?labels|?voters|?voter|?voter| | |?i]; cbn [dispatch];
  first [ rewrite setPollTitle_run | rewrite setChoices_run | rewrite setWhitelist_run
        | rewrite addToWhitelist_run | rewrite removeFromWhitelist_run
        | rewrite startElection_run | rewrite endElection_run | rewrite vote_run ];
  repeat case_match; simplify_eq; cbn [fst snd].

Lemma never_started_after env c s :
  consistent s -> never_started s -> never_started (after env c s).
Proof.
  intros Hs Hzero. revert Hzero. unfold never_started.
  by_call c; cbn; intros Hzero Hid; try lia;
    try (destruct (Hzero Hid) as (Ha & He & Hc & Ht); repeat split; congruence).
  match goal with H : negb (_ <? electionId s) = false |- _ =>
    apply negb_false_iff, N.ltb_lt in H; lia end.
Qed.

Lemma reachable_never_started s : reachable s -> never_started s.
Proof.
  induction 1 as [env Henv|env c s Henv Hs IH]; [done|].
  apply never_started_after; [by apply reachable_consistent|done].
Qed.

(** X5: Until the first election is started, [voterStatus] reports every
    address as having voted, with choice 0 at time 0: the ledger default 0
    equals the election number 0. *)
Theorem voterStatus_before_first_election s voter :
  reachable s ->
  electionId s = 0 ->
  voterStatus voter s = Done (read_flag (isWhitelisted s) voter, true, 0, 0) s [].
Proof.
  intros Hs Hid. destruct (reachable_never_started s Hs Hid) as (_ & He & Hc & Ht).
  unfold voterStatus. unfold_monad. unfold read_uint.
  rewrite He, Hc, Ht, Hid, !lookup_empty. reflexivity.
Qed.

Lemma voterStatus_before_first_election_witness :
  voterStatus voterX configured = Done (true, true, 0, 0) configured [].
Proof.
  assert (Hs : reachable configured)
    by (apply reachable_replay; [valid_envs | apply reachable_deployed; by vm_compute]).
  rewrite (voterStatus_before_first_election configured voterX Hs); [|by vm_compute].
  by vm_compute.
Defined.

(** X6: After a committed [vote(i)], [voterStatus] of the caller returns
    whitelisted and voted with the index [i] and the block time of the
    vote. *)
Theorem voterStatus_after_vote env i s events s' :
  transact (vote env i) s = (Success events, s') ->
  voterStatus (msg_sender env) s' = Done (true, true, i, block_timestamp env) s' [].
Proof.
  unfold transact. rewrite vote_run. repeat case_match; try done. intros [= <- <-].
  simplify_eq. unfold voterStatus. unfold_monad. cbn. unfold read_uint, read_flag in *.
  rewrite !lookup_insert_eq. cbn. rewrite N.eqb_refl.
  match goal with H : negb (default false _) = false |- _ =>
    apply negb_false_iff in H; by rewrite H end.
Qed.

Lemma voterStatus_after_vote_witness :
  voterStatus voterX (after (mkEnv voterX 110) (CallVote 0) election_open)
    = Done (true, true, 0, 110) (after (mkEnv voterX 110) (CallVote 0) election_open) [].
Proof.
  apply (voterStatus_after_vote (mkEnv voterX 110) 0 election_open [VoteCast voterX 0]).
  by vm_compute.
Defined.

(** X7: A committed [startElection] resets the voted status of everyone:
    [voterStatus] then reports not voted, with choice 0 and time 0, for
    every address, whatever the ledger holds from earlier elections. *)
Theorem voterStatus_after_start env s events s' voter :
  reachable s ->
  transact (startElection env) s = (Success events, s') ->
  voterStatus voter s' = Done (read_flag (isWhitelisted s) voter, false, 0, 0) s' [].
Proof.
  intros Hs%reachable_consistent. unfold transact. rewrite startElection_run.
  repeat case_match; try done. intros [= <- <-].
  simplify_eq. unfold voterStatus. unfold_monad. cbn.
  pose proof (ledger_past _ Hs voter) as Hpast.
  assert (Hne : (read_uint (lastVotedElection s) voter =? electionId s + 1) = false)
    by (apply N.eqb_neq; lia).
  by rewrite Hne.
Qed.

Lemma voterStatus_after_start_witness :
  voterStatus voterX second_election = Done (true, false, 0, 0) second_election [].
Proof.
  rewrite (voterStatus_after_start (mkEnv 1 300)
             (after (mkEnv 1 200) CallEndElection ballots_cast)
             [ElectionStarted 300] second_election voterX).
  - by vm_compute.
  - apply reachable_call; [by vm_compute | apply reachable_ballots_cast].
  - by vm_compute.
Defined.

(** *** Access control and the life cycle *)

(** X8: The owner is the deployer, whatever calls follow. *)
Theorem owner_is_deployer env calls :
  owner (replay calls (constructor env)) = msg_sender env.
Proof.
  change (msg_sender env) with (owner (constructor env)).
  generalize (constructor env) as s.
  induction calls as [|[caller c] rest IH]; intros s; [done|].
  cbn [replay]. rewrite IH. by_call c; done.
Qed.

(** X9: Every entry point except [vote] is rejected with "Only owner" for a
    caller other than the owner; [vote] never looks at the owner. *)
Theorem only_owner_administers env c s :
  msg_sender env <> owner s ->
  (forall i, c <> CallVote i) ->
  transact (dispatch env c) s = (Reverted (Error "Only owner"), s).
Proof.
  intros Hne%N.eqb_neq Hadmin. unfold transact.
  destruct c as [title|labels|voters|voter|voter| | |i]; cbn [dispatch].
  - by rewrite setPollTitle_run, Hne.
  - by rewrite setChoices_run, Hne.
  - by rewrite setWhitelist_run, Hne.
  - by rewrite addToWhitelist_run, Hne.
  - by rewrite removeFromWhitelist_run, Hne.
  - by rewrite startElection_run, Hne.
  - by rewrite endElection_run, Hne.
  - by destruct (Hadmin i).
Qed.

Lemma only_owner_administers_witness :
  transact (dispatch (mkEnv voterX 400) CallEndElection) ballots_cast
    = (Reverted (Error "Only owner"), ballots_cast).
Proof.
  apply (only_owner_administers (mkEnv voterX 400) CallEndElection ballots_cast);
    [by vm_compute | done].
Defined.

(** X10: While an election is open no call changes the title, the labels and
    number of the choices, or the whitelist; the five configuration calls
    are all rejected. *)
Theorem configuration_frozen_while_open env c s :
  electionActive s = true ->
  pollTitle (after env c s) = pollTitle s
  /\ map label (choices (after env c s)) = map label (choices s)
  /\ whitelistAddresses (after env c s) = whitelistAddresses s
  /\ isWhitelisted (after env c s) = isWhitelisted s
  /\ (c <> CallStartElection -> c <> CallEndElection -> (forall i, c <> CallVote i) ->
      exists reason, transact (dispatch env c) s = (Reverted (Error reason), s)).
Proof.
  intros Hact. repeat apply conj.
  - by_call c; try done; congruence.
  - by_call c; try done; try congruence. cbn.
    match goal with H : choices s !! _ = Some ?c |- _ =>
      rewrite list_fmap_insert; cbn; apply list_insert_id; by rewrite list_lookup_fmap, H end.
  - by_call c; try done; congruence.
  - by_call c; try done; congruence.
  - intros Hstart Hend Hvote. unfold transact.
    destruct c as [title|labels|voters|voter|voter| | |i]; cbn [dispatch];
      try done; try (by destruct (Hvote i)).
    + rewrite setPollTitle_run, Hact. destruct (negb _); by eexists.
    + rewrite setChoices_run, Hact. destruct (negb _); by eexists.
    + rewrite setWhitelist_run, Hact. destruct (negb _); by eexists.
    + rewrite addToWhitelist_run, Hact. destruct (negb _); by eexists.
    + rewrite removeFromWhitelist_run, Hact. destruct (negb _); by eexists.
Qed.

Lemma configuration_frozen_while_open_witness :
  transact (dispatch deployer (CallSetChoices ["Z"])) ballots_cast
    = (Reverted (Error "Election active"), ballots_cast) /\
  map label (choices (after (mkEnv voterX 130) (CallVote 1) ballots_cast)) = ["A"; "B"].
Proof.
  split; [by vm_compute|].
  destruct (configuration_frozen_while_open (mkEnv voterX 130) (CallVote 1) ballots_cast)
    as (_ & Hlabels & _); [by vm_compute|].
  rewrite Hlabels. by vm_compute.
Defined.

(** X11: The election number moves only by a committed [startElection], by
    exactly one, and the open flag only by a committed [startElection] or
    [endElection]. *)
Theorem election_number_steps env c s :
  (electionId (after env c s) = electionId s /\
   (electionActive (after env c s) = electionActive s \/
    (c = CallEndElection /\ electionActive s = true /\
     electionActive (after env c s) = false)))
  \/ (c = CallStartElection /\ electionActive s = false /\
      electionActive (after env c s) = true /\
      electionId (after env c s) = electionId s + 1).
Proof.
  by_call c; cbn; try (left; split; [done|by left]).
  - right. by repeat split.
  - left. split; [done|]. right. repeat split; try done.
    match goal with H : negb (electionActive s) = false |- _ =>
      by apply negb_false_iff in H end.
Qed.

Lemma voted_stays_voted env c s a :
  c <> CallStartElection ->
  read_uint (lastVotedElection s) a = electionId s ->
  read_uint (lastVotedElection (after env c s)) a = electionId (after env c s).
Proof.
  intros Hc Hvoted. by_call c; cbn; try done.
  unfold read_uint in *. destruct (decide (a = msg_sender env)) as [->|Hne].
  - by rewrite lookup_insert_eq.
  - by rewrite lookup_insert_ne.
Qed.

(** X12: One vote per election: once an identity's vote is committed, no
    history of calls without a [startElection], by anyone, lets a further
    [vote] of that identity commit, whatever the index and the time. *)
Theorem one_vote_per_election env i s events s1 calls env' j :
  transact (vote env i) s = (Success events, s1) ->
  same_election calls ->
  msg_sender env' = msg_sender env ->
  exists reason,
    transact (vote env' j) (replay calls s1) = (Reverted (Error reason), replay calls s1).
Proof.
  intros Hvote Hsame Hsender.
  assert (Hvoted : read_uint (lastVotedElection s1) (msg_sender env) = electionId s1).
  { revert Hvote. unfold transact. rewrite vote_run. repeat case_match; try done.
    intros [= <- <-]. simplify_eq. cbn. unfold read_uint. by rewrite lookup_insert_eq. }
  clear Hvote. revert s1 Hvoted.
  induction calls as [|[caller c] rest IH]; intros s1 Hvoted; cbn [replay].
  - destruct (vote_not_ready_reverts env' j s1) as [reason Hrev].
    + intros (_ & _ & _ & Hlt). rewrite Hsender in Hlt. lia.
    + exists reason. unfold transact. by rewrite Hrev.
  - apply Forall_cons in Hsame as [Hc Hrest]. apply IH; [done|].
    by apply voted_stays_voted.
Qed.

Lemma one_vote_per_election_witness :
  exists reason,
    transact (vote (mkEnv voterX 500) 1)
      (replay [(mkEnv voterY 120, CallVote 1); (mkEnv 1 200, CallEndElection);
               (mkEnv 1 210, CallSetChoices ["C"; "D"])]
         (after (mkEnv voterX 110) (CallVote 0) election_open))
    = (Reverted (Error reason),
       replay [(mkEnv voterY 120, CallVote 1); (mkEnv 1 200, CallEndElection);
               (mkEnv 1 210, CallSetChoices ["C"; "D"])]
         (after (mkEnv voterX 110) (CallVote 0) election_open)).
Proof.
  apply (one_vote_per_election (mkEnv voterX 110) 0 election_open [VoteCast voterX 0]
           (after (mkEnv voterX 110) (CallVote 0) election_open)).
  - by vm_compute.
  - repeat (apply List.Forall_cons; [done|]). apply List.Forall_nil.
  - done.
Defined.

(** *** Invariants of the tally and of the configuration *)

Lemma open_tally_exact_after env c s :
  consistent s -> open_tally_exact s -> open_tally_exact (after env c s).
Proof.
  intros Hs Hexact. revert Hexact. unfold open_tally_exact.
  by_call c; cbn -[zeroed tally]; try done; try congruence; auto.
  - intros _ _. rewrite tally_zeroed. unfold voted_now. cbn.
    symmetry. apply map_size_empty_iff, map_empty_filter.
    intros a e He Heq. cbn in Heq. pose proof (ledger_past _ Hs a) as Hpast.
    unfold read_uint in Hpast. rewrite He in Hpast. cbn in Hpast. lia.
  - intros Hexact Hact. specialize (Hexact Hact).
    match goal with H : _ !! _ = Some _ |- _ => rewrite (tally_insert _ _ _ _ H) end.
    unfold voted_now in *. cbn.
    match goal with H : negb (_ <? electionId s) = false |- _ =>
      apply negb_false_iff, N.ltb_lt in H; rename H into Hlt end.
    rewrite map_filter_insert_True by done.
    rewrite map_size_insert_None; [lia|].
    apply map_lookup_filter_None. right. intros x Hx Hx2. cbn in Hx2.
    unfold read_uint in Hlt. rewrite Hx in Hlt. cbn in Hlt. lia.
Qed.

Lemma reachable_open_tally_exact s : reachable s -> open_tally_exact s.
Proof.
  induction 1 as [env Henv|env c s Henv Hs IH]; [done|].
  apply open_tally_exact_after; [by apply reachable_consistent|done].
Qed.

(** X13: In an open election the sum of the counters is the number of
    addresses whose last voted election is the current one: every
    committed vote is counted once and nothing else is. *)
Theorem open_tally_counts_voters s :
  reachable s -> electionActive s = true ->
  tally (choices s) = N.of_nat (size (voted_now s)).
Proof.
  intros Hs Hact. pose proof (reachable_open_tally_exact s Hs Hact) as Hexact. lia.
Qed.

Lemma open_tally_counts_voters_witness :
  tally (choices ballots_cast) = N.of_nat (size (voted_now ballots_cast)).
Proof.
  apply (open_tally_counts_voters ballots_cast reachable_ballots_cast). by vm_compute.
Defined.

Lemma size_list_to_set_le (l : list N) : (size (list_to_set l : gset N) <= length l)%nat.
Proof.
  induction l as [|a l IH]; cbn; [by rewrite size_empty|].
  rewrite size_union_alt, size_singleton.
  pose proof (subseteq_size (list_to_set l ∖ {[a]}) (list_to_set l : gset N)) as Hsub.
  assert (Hdiff : list_to_set l ∖ {[a]} ⊆ (list_to_set l : gset N))
    by (intros x [Hx _]%elem_of_difference; exact Hx).
  specialize (Hsub Hdiff). lia.
Qed.

Lemma count_active_filter flags addrs :
  count_active flags addrs 0 =
    N.of_nat (length (filter (fun a => read_flag flags a = true) addrs)).
Proof.
  induction addrs as [|a rest IH]; [done|]. cbn [count_active].
  destruct (read_flag flags a) eqn:Ha.
  - rewrite filter_cons_True by done. rewrite count_active_acc, IH. cbn [length]. lia.
  - rewrite filter_cons_False by congruence. exact IH.
Qed.

(** X14: In an open election the votes cast never exceed the number of
    whitelisted entries that [startElection] counts. *)
Theorem turnout_within_whitelist s :
  reachable s -> electionActive s = true ->
  tally (choices s) <= _activeWhitelistCount s.
Proof.
  intros Hs Hact. pose proof (reachable_open_tally_exact s Hs Hact) as Hexact.
  apply reachable_consistent in Hs.
  unfold _activeWhitelistCount. rewrite count_active_filter.
  set (listed := filter (fun a => read_flag (isWhitelisted s) a = true) (whitelistAddresses s)).
  assert (Hsub : dom (voted_now s) ⊆ (list_to_set listed : gset N)).
  { intros a [e He]%elem_of_dom. apply elem_of_list_to_set.
    apply map_lookup_filter_Some in He as [He Hnow]. cbn in Hnow.
    assert (Hvoted : read_uint (lastVotedElection s) a = electionId s)
      by (unfold read_uint; by rewrite He).
    pose proof (voted_whitelisted _ Hs Hact a Hvoted) as Hflag.
    apply list_elem_of_filter. split; [done|]. by apply (whitelist_tracked _ Hs). }
  apply subseteq_size in Hsub. rewrite size_dom in Hsub.
  pose proof (size_list_to_set_le listed). unfold listed in *. lia.
Qed.

Lemma turnout_within_whitelist_witness :
  tally (choices ballots_cast) <= _activeWhitelistCount ballots_cast.
Proof.
  apply (turnout_within_whitelist ballots_cast reachable_ballots_cast). by vm_compute.
Defined.

Lemma labels_nonblank_after env c s :
  labels_nonblank s -> labels_nonblank (after env c s).
Proof.
  intros Hlab. by_call c; try done; unfold labels_nonblank;
    cbn -[fresh_choices zeroed]; intros j d Hd.
  - unfold fresh_choices in Hd. rewrite list_lookup_fmap in Hd.
    destruct (labels !! j) as [l|] eqn:Hl; [|done]. injection Hd as <-. cbn.
    match goal with H : forallb nonblank labels = true |- _ =>
      rewrite forallb_forall in H; apply H end.
    apply list_elem_of_In, list_elem_of_lookup. by exists j.
  - unfold zeroed in Hd. rewrite list_lookup_fmap in Hd.
    destruct (choices s !! j) as [d0|] eqn:Hd0; [|done]. injection Hd as <-. cbn.
    by apply (Hlab j).
  - destruct (decide (j = N.to_nat i)) as [->|Hne].
    + rewrite list_lookup_insert_eq in Hd by (by eapply lookup_lt_Some).
      injection Hd as <-. cbn. by eapply Hlab.
    + rewrite list_lookup_insert_ne in Hd by done. by apply (Hlab j).
Qed.

(** X15: Every choice of the deployed contract has a non-empty label, at any
    point of any history. *)
Theorem stored_labels_are_nonblank s i c :
  reachable s -> choices s !! i = Some c -> label c <> "".
Proof.
  intros Hs Hc.
  assert (Hlab : labels_nonblank s).
  { clear Hc. induction Hs as [env Henv|env c0 s Henv Hs IH]; [done|].
    by apply labels_nonblank_after. }
  specialize (Hlab i c Hc). intros Hblank. by rewrite Hblank in Hlab.
Qed.

Lemma stored_labels_are_nonblank_witness :
  choices ballots_cast !! 1%nat = Some (mkChoice "B" 1) /\ label (mkChoice "B" 1) <> "".
Proof.
  assert (Hc : choices ballots_cast !! 1%nat = Some (mkChoice "B" 1)) by (by vm_compute).
  split; [exact Hc|].
  exact (stored_labels_are_nonblank ballots_cast 1%nat (mkChoice "B" 1)
           reachable_ballots_cast Hc).
Defined.

Lemma enrolled_elements w voters a :
  a ∈ (enrolled w voters).2 -> a ∈ w.2 \/ a ∈ voters.
Proof.
  revert w. induction voters as [|v rest IH]; intros w; cbn; [by left|].
  intros [Hw|Hin]%IH; [|right; by right].
  unfold enrol in Hw. destruct (read_flag w.1 v); [by left|].
  cbn in Hw. apply elem_of_app in Hw as [|Hv]; [by left|].
  apply list_elem_of_singleton in Hv as ->. right. by left.
Qed.

Lemma zero_unlisted_after env c s :
  zero_unlisted s -> zero_unlisted (after env c s).
Proof.
  intros [Hflag Harr]. by_call c; try done; unfold zero_unlisted; cbn.
  - match goal with H : forallb nonzero voters = true |- _ =>
      rewrite forallb_forall in H; rename H into Hnz end.
    assert (Hnot : 0 ∉ voters).
    { intros Hin%list_elem_of_In%Hnz. done. }
    split.
    + apply not_true_iff_false. intros [Hold|Hin]%read_flag_enrolled; [|done].
      cbn in Hold. rewrite read_flag_cleared in Hold. by destruct (decide _); congruence.
    + intros [Hin|Hin]%enrolled_elements; [|done]. by apply elem_of_nil in Hin.
  - match goal with H : (voter =? 0) = false |- _ => apply N.eqb_neq in H end.
    split.
    + unfold read_flag. by rewrite lookup_insert_ne.
    + intros [Hin|Hin%list_elem_of_singleton]%elem_of_app; [done|congruence].
  - split; [|done]. unfold read_flag. destruct (decide (voter = 0)) as [->|Hne].
    + by rewrite lookup_insert_eq.
    + by rewrite lookup_insert_ne.
Qed.

(** X16: The zero address is never whitelisted and never enumerated. *)
Theorem zero_address_never_whitelisted s :
  reachable s ->
  read_flag (isWhitelisted s) 0 = false /\ 0 ∉ whitelistAddresses s.
Proof.
  induction 1 as [env Henv|env c s Henv Hs IH].
  - split; [done|]. apply not_elem_of_nil.
  - by apply zero_unlisted_after.
Qed.

Lemma zero_address_never_whitelisted_witness :
  read_flag (isWhitelisted ballots_cast) 0 = false /\ 0 ∉ whitelistAddresses ballots_cast.
Proof. apply (zero_address_never_whitelisted ballots_cast reachable_ballots_cast). Defined.

Lemma open_configured_after env c s :
  open_configured s -> open_configured (after env c s).
Proof.
  unfold open_configured. by_call c; cbn; try done; try congruence; auto.
  - intros _ _.
    match goal with H : negb (0 <? N.of_nat (length (choices s))) = false |- _ =>
      apply negb_false_iff, N.ltb_lt in H; rename H into Hlen end.
    match goal with H : negb (0 <? _activeWhitelistCount s) = false |- _ =>
      apply negb_false_iff, N.ltb_lt in H; rename H into Hcount end.
    repeat split; [|lia|done].
    destruct (choices s); [cbn in Hlen; lia|done].
  - intros Hopen Hact. destruct (Hopen Hact) as (Hcs & Hid & Hend & Hcount).
    repeat split; try done.
    intros Hnil. apply (f_equal length) in Hnil. rewrite length_insert in Hnil.
    by destruct (choices s).
Qed.

(** X17: An open election has at least one choice and at least one whitelisted
    entry, a positive election number and a cleared end time. *)
Theorem open_election_is_configured s :
  reachable s -> electionActive s = true ->
  choices s <> [] /\ 1 <= electionId s /\ electionEnd s = 0 /\
  0 < _activeWhitelistCount s.
Proof.
  intros Hs. change (open_configured s).
  induction Hs as [env Henv|env c s Henv Hs IH]; [done|].
  by apply open_configured_after.
Qed.

Lemma open_election_is_configured_witness :
  choices ballots_cast <> [] /\ 1 <= electionId ballots_cast /\
  electionEnd ballots_cast = 0 /\ 0 < _activeWhitelistCount ballots_cast.
Proof.
  apply (open_election_is_configured ballots_cast reachable_ballots_cast). by vm_compute.
Defined.

(** *** Configuring the choices and the whitelist *)

(** X18: For the owner and a closed election, [setChoices] rejects the empty
    list with "No choices", then a list holding a blank label with "Empty
    choice", and commits every other list: the choices are then the
    labels in order with zero counters, whatever was stored before. *)
Theorem setChoices_validation env labels s :
  msg_sender env = owner s -> electionActive s = false ->
  (labels = [] ->
     transact (setChoices env labels) s = (Reverted (Error "No choices"), s))
  /\ (labels <> [] -> "" ∈ labels ->
      transact (setChoices env labels) s = (Reverted (Error "Empty choice"), s))
  /\ (labels <> [] -> "" ∉ labels ->
      exists s', transact (setChoices env labels) s
                   = (Success [ChoicesSet (N.of_nat (length labels))], s') /\
        choices s' = map (fun l => mkChoice l 0) labels /\
        choiceCount s' = Done (N.of_nat (length labels)) s' []).
Proof.
  intros Hown%N.eqb_eq Hact. unfold transact.
  rewrite setChoices_run, Hown, Hact. cbn [negb]. repeat apply conj.
  - by intros ->.
  - intros Hne Hblank%blank_label_rejected. rewrite Hblank.
    by destruct labels.
  - intros Hne Hnoblank.
    assert (Hall : forallb nonblank labels = true).
    { apply forallb_forall. intros l Hl%list_elem_of_In.
      destruct l; [done|]. reflexivity. }
    rewrite Hall. destruct labels as [|l0 rest]; [done|]. cbn [length negb].
    eexists. split; [reflexivity|]. cbn. split; [done|].
    unfold choiceCount. unfold_monad. cbn. by rewrite length_map.
Qed.

Lemma setChoices_validation_witness :
  transact (setChoices deployer []) configured = (Reverted (Error "No choices"), configured) /\
  exists s', transact (setChoices deployer ["Yes"; "No"]) configured
               = (Success [ChoicesSet 2], s') /\
             choices s' = [mkChoice "Yes" 0; mkChoice "No" 0].
Proof.
  destruct (setChoices_validation deployer [] configured) as (Hempty & _);
    [by vm_compute ..|].
  destruct (setChoices_validation deployer ["Yes"; "No"] configured) as (_ & _ & Hok);
    [by vm_compute ..|].
  split; [by apply Hempty|].
  destruct Hok as (s' & Hrun & Hcs & _); [done| |by exists s'].
  intros [Hin|[Hin|Hin%elem_of_nil]%elem_of_cons]%elem_of_cons; done.
Defined.

Lemma enrolled_listed_flagged w voters :
  (NoDup w.2 /\ forall a, a ∈ w.2 -> read_flag w.1 a = true) ->
  NoDup (enrolled w voters).2 /\
  forall a, a ∈ (enrolled w voters).2 -> read_flag (enrolled w voters).1 a = true.
Proof.
  revert w. induction voters as [|v rest IH]; intros w Hw; [exact Hw|].
  cbn. apply IH. destruct Hw as [Hnodup Hflag]. unfold enrol.
  destruct (read_flag w.1 v) eqn:Hv; [done|]. cbn. split.
  - apply NoDup_app. split; [done|]. split; [|apply NoDup_singleton].
    intros a Ha ->%list_elem_of_singleton. apply Hflag in Ha. congruence.
  - intros a Ha. unfold read_flag. destruct (decide (a = v)) as [->|Hne].
    + by rewrite lookup_insert_eq.
    + rewrite lookup_insert_ne by done.
      apply elem_of_app in Ha as [Ha|Ha%list_elem_of_singleton]; [by apply Hflag|done].
Qed.

Lemma enrolled_keeps w voters a : a ∈ w.2 -> a ∈ (enrolled w voters).2.
Proof.
  revert w. induction voters as [|v rest IH]; intros w Ha; [done|].
  cbn. apply IH. unfold enrol. destruct (read_flag w.1 v); [done|].
  cbn. apply elem_of_app. by left.
Qed.

Lemma enrolled_enters w voters a :
  (forall b, read_flag w.1 b = true -> b ∈ w.2) ->
  a ∈ voters -> a ∈ (enrolled w voters).2.
Proof.
  revert w. induction voters as [|v rest IH]; intros w Hw Ha;
    [by apply elem_of_nil in Ha|].
  cbn. pose proof (enrolled_tracked w [v] Hw) as Hw1. cbn in Hw1.
  apply elem_of_cons in Ha as [->|Ha]; [|by apply IH].
  apply enrolled_keeps. unfold enrol. destruct (read_flag w.1 v) eqn:Hv; [by apply Hw|].
  cbn. apply elem_of_app. right. by left.
Qed.

(** X19: A committed [setWhitelist] leaves an enumeration without repetition
    that holds exactly the identities of the call, all flagged: repeated
    identities of the list are entered once, while the event still carries
    the length of the list as it was passed. *)
Theorem setWhitelist_enters_each_once env voters s events s' :
  reachable s ->
  transact (setWhitelist env voters) s = (Success events, s') ->
  NoDup (whitelistAddresses s')
  /\ (forall a, a ∈ whitelistAddresses s' <-> a ∈ voters)
  /\ (forall a, a ∈ whitelistAddresses s' -> read_flag (isWhitelisted s') a = true)
  /\ (length (whitelistAddresses s') <= length voters)%nat
  /\ events = [WhitelistSet (N.of_nat (length voters))].
Proof.
  intros Hs%reachable_consistent. unfold transact. rewrite setWhitelist_run.
  repeat case_match; try done. intros [= <- <-]. simplify_eq. cbn.
  set (w0 := (cleared (isWhitelisted s) (whitelistAddresses s), @nil N)).
  assert (Hw0 : forall b, read_flag w0.1 b = true -> b ∈ w0.2).
  { intros b. cbn. rewrite read_flag_cleared. destruct (decide _); [done|].
    intros Hb. by apply (whitelist_tracked _ Hs) in Hb. }
  destruct (enrolled_listed_flagged w0 voters) as [Hnodup Hflag].
  { split; [apply NoDup_nil_2|]. intros a Ha. by apply elem_of_nil in Ha. }
  assert (Hin : forall a, a ∈ (enrolled w0 voters).2 <-> a ∈ voters).
  { intros a. split.
    - intros [Ha|Ha]%enrolled_elements; [by apply elem_of_nil in Ha|done].
    - by apply enrolled_enters. }
  repeat apply conj; try done; try apply Hin.
  apply NoDup_incl_length.
  - by apply NoDup_ListNoDup.
  - intros a Ha%list_elem_of_In. by apply list_elem_of_In, Hin.
Qed.

Lemma setWhitelist_enters_each_once_witness :
  let s' := after deployer (CallSetWhitelist [voterX; voterY; voterX]) configured in
  NoDup (whitelistAddresses s') /\
  (length (whitelistAddresses s') <= 3)%nat /\
  (voterX ∈ whitelistAddresses s' <-> voterX ∈ [voterX; voterY; voterX]).
Proof.
  cbn zeta.
  destruct (setWhitelist_enters_each_once deployer [voterX; voterY; voterX] configured
              [WhitelistSet 3]
              (after deployer (CallSetWhitelist [voterX; voterY; voterX]) configured))
    as (Hnodup & Hin & _ & Hlen & _).
  - apply reachable_replay; [valid_envs | apply reachable_deployed; by vm_compute].
  - by vm_compute.
  - split; [exact Hnodup|]. split; [exact Hlen|apply Hin].
Defined.

(** X20: For the owner and a closed election, [setWhitelist] rejects the empty
    list with "No voters" and a list holding the zero address with
    "Invalid voter"; both leave the whitelist as it was. *)
Theorem setWhitelist_validation env voters s :
  msg_sender env = owner s -> electionActive s = false ->
  (voters = [] ->
     transact (setWhitelist env voters) s = (Reverted (Error "No voters"), s))
  /\ (voters <> [] -> 0 ∈ voters ->
      transact (setWhitelist env voters) s = (Reverted (Error "Invalid voter"), s))
  /\ (voters <> [] -> 0 ∉ voters ->
      exists s', transact (setWhitelist env voters) s
                   = (Success [WhitelistSet (N.of_nat (length voters))], s')).
Proof.
  intros Hown%N.eqb_eq Hact. unfold transact.
  rewrite setWhitelist_run, Hown, Hact. cbn [negb]. repeat apply conj.
  - by intros ->.
  - intros Hne Hzero%zero_voter_rejected. rewrite Hzero. by destruct voters.
  - intros Hne Hnozero.
    assert (Hall : forallb nonzero voters = true).
    { apply forallb_forall. intros v Hv%list_elem_of_In. unfold nonzero.
      apply negb_true_iff, N.eqb_neq. by intros ->. }
    rewrite Hall. destruct voters as [|v0 rest]; [done|]. cbn [length negb].
    by eexists.
Qed.

Lemma setWhitelist_validation_witness :
  transact (setWhitelist deployer []) configured = (Reverted (Error "No voters"), configured) /\
  transact (setWhitelist deployer [voterX; 0]) configured
    = (Reverted (Error "Invalid voter"), configured).
Proof.
  destruct (setWhitelist_validation deployer [] configured) as (Hempty & _);
    [by vm_compute ..|].
  destruct (setWhitelist_validation deployer [voterX; 0] configured) as (_ & Hzero & _);
    [by vm_compute ..|].
  split; [by apply Hempty|]. apply Hzero; [done|]. right. by left.
Defined.

(** X21: For the owner and a closed election, [addToWhitelist] rejects the
    zero address with "Invalid voter"; for an identity that is already
    whitelisted it commits without an event and without any change, so
    adding twice is adding once; otherwise it sets the flag and appends
    the identity to the enumeration. *)
Theorem addToWhitelist_outcomes env voter s :
  msg_sender env = owner s -> electionActive s = false ->
  (voter = 0 ->
     transact (addToWhitelist env voter) s = (Reverted (Error "Invalid voter"), s))
  /\ (voter <> 0 -> read_flag (isWhitelisted s) voter = true ->
      transact (addToWhitelist env voter) s = (Success [], s))
  /\ (voter <> 0 -> read_flag (isWhitelisted s) voter = false ->
      exists s', transact (addToWhitelist env voter) s = (Success [WhitelistAdded voter], s') /\
        read_flag (isWhitelisted s') voter = true /\
        whitelistAddresses s' = (whitelistAddresses s ++ [voter])%list /\
        (forall a, a <> voter -> isWhitelisted s' !! a = isWhitelisted s !! a) /\
        transact (addToWhitelist env voter) s' = (Success [], s')).
Proof.
  intros Hown%N.eqb_eq Hact. unfold transact.
  rewrite !addToWhitelist_run, Hown, Hact. cbn [negb]. repeat apply conj.
  - by intros ->.
  - intros Hne%N.eqb_neq Hflag. by rewrite Hne, Hflag.
  - intros Hne%N.eqb_neq Hflag. rewrite Hne, Hflag.
    eexists. split; [reflexivity|]. cbn.
    assert (Hset : read_flag (<[voter:=true]> (isWhitelisted s)) voter = true)
      by (unfold read_flag; by rewrite lookup_insert_eq).
    repeat apply conj; try done.
    + intros a Ha. by rewrite lookup_insert_ne.
    + rewrite addToWhitelist_run. cbn. by rewrite Hown, Hact, Hne, Hset.
Qed.

Lemma addToWhitelist_outcomes_witness :
  transact (addToWhitelist deployer voterX) configured = (Success [], configured) /\
  transact (addToWhitelist deployer 0) configured
    = (Reverted (Error "Invalid voter"), configured).
Proof.
  destruct (addToWhitelist_outcomes deployer voterX configured) as (_ & Hdone & _);
    [by vm_compute ..|].
  destruct (addToWhitelist_outcomes deployer 0 configured) as (Hzero & _);
    [by vm_compute ..|].
  split; [apply Hdone; by vm_compute|by apply Hzero].
Defined.

(** X22: An identity removed from the whitelist before an election is started
    cannot vote in it: its [vote] is rejected with "Not whitelisted" at
    every valid index, and a second removal is rejected with "Not
    whitelisted" as well. *)
Theorem removed_identity_cannot_vote env voter s ev1 s1 env' ev2 s2 caller j :
  transact (removeFromWhitelist env voter) s = (Success ev1, s1) ->
  transact (startElection env') s1 = (Success ev2, s2) ->
  msg_sender caller = voter ->
  transact (removeFromWhitelist env voter) s1 = (Reverted (Error "Not whitelisted"), s1)
  /\ (j < N.of_nat (length (choices s2)) ->
      transact (vote caller j) s2 = (Reverted (Error "Not whitelisted"), s2))
  /\ exists reason, transact (vote caller j) s2 = (Reverted (Error reason), s2).
Proof.
  intros Hrem Hstart Hcaller.
  assert (Hoff : read_flag (isWhitelisted s1) voter = false
                 /\ electionActive s1 = false /\ owner s1 = msg_sender env).
  { revert Hrem. unfold transact. rewrite removeFromWhitelist_run.
    destruct (negb (msg_sender env =? owner s)) eqn:Hown; [done|].
    destruct (electionActive s) eqn:Hact; [done|].
    destruct (negb (read_flag (isWhitelisted s) voter)); [done|].
    intros [= <- <-]. cbn. apply negb_false_iff, N.eqb_eq in Hown.
    split; [|done]. unfold read_flag. by rewrite lookup_insert_eq. }
  destruct Hoff as (Hoff & Hclosed & Hown).
  assert (Hopen : isWhitelisted s2 = isWhitelisted s1 /\ electionActive s2 = true
                  /\ length (choices s2) = length (choices s1)).
  { revert Hstart. unfold transact. rewrite startElection_run.
    destruct (negb (msg_sender env' =? owner s1)); [done|].
    destruct (electionActive s1); [done|].
    destruct (negb (0 <? N.of_nat (length (choices s1)))); [done|].
    destruct (negb (0 <? _activeWhitelistCount s1)); [done|].
    destruct (electionId s1 + 1 <=? MAX_UINT256); [|done].
    intros [= <- <-]. cbn -[zeroed]. unfold zeroed. by rewrite length_map. }
  destruct Hopen as (Hflags & Hact & Hlen).
  unfold transact. rewrite removeFromWhitelist_run, vote_run.
  rewrite Hclosed, Hoff, Hown, N.eqb_refl, Hact, Hflags, Hcaller, Hoff. cbn.
  split; [done|]. split.
  - intros Hlt%N.ltb_lt. by rewrite Hlt.
  - destruct (j <? _); by eexists.
Qed.

Lemma removed_identity_cannot_vote_witness :
  let s := after (mkEnv 1 200) CallEndElection ballots_cast in
  let s1 := after (mkEnv 1 210) (CallRemoveFromWhitelist voterX) s in
  let s2 := after (mkEnv 1 300) CallStartElection s1 in
  transact (vote (mkEnv voterX 310) 0) s2 = (Reverted (Error "Not whitelisted"), s2).
Proof.
  cbn zeta.
  destruct (removed_identity_cannot_vote (mkEnv 1 210) voterX
              (after (mkEnv 1 200) CallEndElection ballots_cast)
              [WhitelistRemoved voterX]
              (after (mkEnv 1 210) (CallRemoveFromWhitelist voterX)
                 (after (mkEnv 1 200) CallEndElection ballots_cast))
              (mkEnv 1 300) [ElectionStarted 300]
              (after (mkEnv 1 300) CallStartElection
                 (after (mkEnv 1 210) (CallRemoveFromWhitelist voterX)
                    (after (mkEnv 1 200) CallEndElection ballots_cast)))
              (mkEnv voterX 310) 0) as (_ & Hvote & _); [by vm_compute ..|].
  apply Hvote. by vm_compute.
Defined.

(** *** The winner as votes come in *)

Lemma getWinner_of_choices s :
  choices s <> [] ->
  exists k c hasTie,
    getWinner s = Done (N.of_nat k, label c, votes c, hasTie, true) s [] /\
    choices s !! k = Some c /\ reports (choices s) k (votes c) hasTie.
Proof.
  unfold getWinner. unfold_monad.
  destruct (choices s) as [|c0 rest] eqn:Hcs; [done|]. intros _. cbn [winner_scan].
  pose proof (winner_scan_leads rest [c0] _
                (winner_step_first c0 (mkLeader 0 0 false false) eq_refl)) as Hleads.
  cbn [app length] in Hleads. change (N.of_nat 1) with (0 + 1) in Hleads.
  set (t := winner_scan rest (0 + 1) (winner_step c0 0 (mkLeader 0 0 false false))) in *.
  destruct Hleads as (Hfound & c & Hc & Hvotes & Hmax & Hfirst & Htie).
  rewrite Hfound. cbn [negb]. rewrite Hc.
  exists (N.to_nat (topIndex t)), c, (tie t).
  rewrite N2Nat.id, <- Hvotes. rewrite <- Hvotes in Hmax, Hfirst, Htie.
  split; [done|]. split; [done|]. split; [by exists c|]. by split.
Qed.

Lemma getWinner_reports s k l v hasTie :
  getWinner s = Done (k, l, v, hasTie, true) s [] ->
  reports (choices s) (N.to_nat k) v hasTie /\
  exists c, choices s !! N.to_nat k = Some c /\ label c = l.
Proof.
  intros Hrun. destruct (choices s) as [|c0 rest] eqn:Hcs.
  - unfold getWinner in Hrun. unfold_monad. by rewrite Hcs in Hrun.
  - destruct (getWinner_of_choices s) as (k0 & c & tie0 & Hrun0 & Hc & Hrep);
      [by rewrite Hcs|].
    rewrite Hrun0 in Hrun. injection Hrun as <- <- <- <-.
    rewrite Nat2N.id, <- Hcs. split; [done|]. by exists c.
Qed.

Lemma reports_after_one_more cs i ci k v hasTie k' v' hasTie' :
  cs !! i = Some ci ->
  reports cs k v hasTie ->
  reports (<[i := mkChoice (label ci) (votes ci + 1)]> cs) k' v' hasTie' ->
  (k' = k \/ k' = i) /\ v <= v' /\ v' <= v + 1 /\
  (i = k -> k' = k /\ v' = v + 1 /\ hasTie' = false).
Proof.
  intros Hi ((c & Hc & Hv) & Hmax & Hfirst & Htie)
         ((c' & Hc' & Hv') & Hmax' & Hfirst' & Htie').
  pose proof (lookup_lt_Some _ _ _ Hi) as Hlen.
  assert (Hnew : forall j, j <> i ->
            (<[i := mkChoice (label ci) (votes ci + 1)]> cs) !! j = cs !! j)
    by (intros j Hj; by apply list_lookup_insert_ne).
  assert (Hbump : (<[i := mkChoice (label ci) (votes ci + 1)]> cs) !! i
                  = Some (mkChoice (label ci) (votes ci + 1)))
    by (by apply list_lookup_insert_eq).
  assert (Hk : exists d, (<[i := mkChoice (label ci) (votes ci + 1)]> cs) !! k = Some d
                         /\ v <= votes d).
  { destruct (decide (k = i)) as [->|Hne].
    - eexists. split; [exact Hbump|]. cbn. rewrite Hi in Hc. injection Hc as <-. lia.
    - exists c. rewrite Hnew by done. split; [done|lia]. }
  destruct Hk as (d & Hd & Hvd).
  pose proof (Hmax' _ _ Hd) as Hle.
  assert (Hup : v' <= v + 1).
  { destruct (decide (k' = i)) as [->|Hne].
    - rewrite Hbump in Hc'. injection Hc' as <-. cbn in Hv'.
      specialize (Hmax _ _ Hi). lia.
    - rewrite Hnew in Hc' by done. specialize (Hmax _ _ Hc'). lia. }
  assert (Hki : k' = k \/ k' = i).
  { destruct (decide (k' = i)) as [|Hne]; [by right|]. left.
    rewrite Hnew in Hc' by done. pose proof (Hmax _ _ Hc') as Hold.
    destruct (Nat.lt_trichotomy k' k) as [Hlt|[Heq|Hgt]]; [|done|].
    - specialize (Hfirst _ _ Hc' Hlt). lia.
    - specialize (Hfirst' _ _ Hd Hgt). lia. }
  split; [done|]. split; [lia|]. split; [done|].
  intros ->. rewrite Hi in Hc. injection Hc as <-.
  rewrite Hbump in Hd. injection Hd as <-. cbn in Hle.
  assert (Hsame : k' = k).
  { destruct Hki as [|Hk']; [done|]. done. }
  subst k'. split; [done|]. split; [lia|].
  apply not_true_iff_false. intros (j & e & Hj & He & Hve)%Htie'.
  rewrite Hnew in He by done. specialize (Hmax _ _ He). lia.
Qed.

Lemma vote_commit_choices env i s events s' :
  transact (vote env i) s = (Success events, s') ->
  exists ci, choices s !! N.to_nat i = Some ci /\
    choices s' = <[N.to_nat i := mkChoice (label ci) (votes ci + 1)]> (choices s).
Proof.
  unfold transact. rewrite vote_run.
  destruct (negb (electionActive s)); [done|].
  destruct (negb (i <? _)); [done|].
  destruct (negb (read_flag _ _)); [done|].
  destruct (negb (_ <? electionId s)); [done|].
  destruct (choices s !! N.to_nat i) as [ci|]; [|done].
  destruct (_ <=? _); [|done]. intros [= <- <-]. by exists ci.
Qed.

(** X23: One more vote moves the winner only in favour of the voted choice:
    after a committed [vote(i)], [getWinner] reports either the leader it
    reported before or [i], with the same top count or one more; and when
    the vote went to the reported leader, that leader is kept with one
    more vote and no tie. *)
Theorem one_more_vote_favours_its_choice env i s events s' k l v hasTie :
  transact (vote env i) s = (Success events, s') ->
  getWinner s = Done (k, l, v, hasTie, true) s [] ->
  exists k' l' v' hasTie',
    getWinner s' = Done (k', l', v', hasTie', true) s' [] /\
    (k' = k \/ k' = i) /\ v <= v' /\ v' <= v + 1 /\
    (i = k -> k' = k /\ l' = l /\ v' = v + 1 /\ hasTie' = false).
Proof.
  intros (ci & Hi & Hcs')%vote_commit_choices (Hrep & c & Hc & Hl)%getWinner_reports.
  destruct (getWinner_of_choices s') as (k' & c' & tie' & Hrun' & Hc' & Hrep').
  { rewrite Hcs'. intros Hnil%(f_equal length). rewrite length_insert in Hnil.
    apply lookup_lt_Some in Hi. cbn in Hnil. lia. }
  rewrite Hcs' in Hrep', Hc'.
  destruct (reports_after_one_more _ _ _ _ _ _ _ _ _ Hi Hrep Hrep')
    as (Hki & Hlo & Hup & Hlead).
  exists (N.of_nat k'), (label c'), (votes c'), tie'. split; [done|].
  split; [destruct Hki as [->| ->]; [left|right]; lia|].
  split; [done|]. split; [done|].
  intros ->. destruct (Hlead eq_refl) as (-> & Hv' & Htie'). rewrite N2Nat.id.
  repeat split; try done.
  rewrite list_lookup_insert_eq in Hc' by (by eapply lookup_lt_Some).
  injection Hc' as <-. cbn. rewrite Hi in Hc. by injection Hc as <-.
Qed.

Lemma one_more_vote_favours_its_choice_witness :
  exists k' l' v' hasTie',
    getWinner (after (mkEnv voterX 110) (CallVote 0) election_open)
      = Done (k', l', v', hasTie', true)
          (after (mkEnv voterX 110) (CallVote 0) election_open) [] /\
    k' = 0 /\ l' = "A" /\ v' = 1 /\ hasTie' = false.
Proof.
  destruct (one_more_vote_favours_its_choice (mkEnv voterX 110) 0 election_open
              [VoteCast voterX 0] (after (mkEnv voterX 110) (CallVote 0) election_open)
              0 "A" 0 true)
    as (k' & l' & v' & tie' & Hrun & _ & _ & _ & Hlead); [by vm_compute ..|].
  exists k', l', v', tie'. split; [exact Hrun|].
  destruct (Hlead eq_refl) as (-> & -> & -> & ->). done.
Defined.

Lemma reports_all_zero cs k v hasTie :
  (forall j d, cs !! j = Some d -> votes d = 0) ->
  reports cs k v hasTie ->
  k = 0%nat /\ v = 0 /\ (hasTie = true <-> (2 <= length cs)%nat).
Proof.
  intros Hzero ((c & Hc & Hv) & Hmax & Hfirst & Htie).
  pose proof (Hzero _ _ Hc) as Hv0.
  assert (Hk : k = 0%nat).
  { destruct k as [|k]; [done|].
    destruct (lookup_lt_is_Some_2 cs 0%nat) as [d Hd];
      [apply lookup_lt_Some in Hc; lia|].
    specialize (Hfirst _ _ Hd). specialize (Hzero _ _ Hd). lia. }
  subst k. split; [done|]. split; [lia|]. rewrite Htie. split.
  - intros (j & d & Hj & Hd & _). apply lookup_lt_Some in Hd. lia.
  - intros Hlen. destruct (lookup_lt_is_Some_2 cs 1%nat) as [d Hd]; [lia|].
    exists 1%nat, d. split; [done|]. split; [done|].
    specialize (Hzero _ _ Hd). lia.
Qed.

(** X24: Right after a committed [startElection], [getWinner] reports the
    first choice as the winner with zero votes, and reports a tie as soon
    as there are two choices. *)
Theorem fresh_election_reports_first_choice env s events s' :
  transact (startElection env) s = (Success events, s') ->
  exists c0 rest,
    choices s = c0 :: rest /\
    getWinner s' = Done (0, label c0, 0, (if rest is [] then false else true), true) s' [].
Proof.
  unfold transact. rewrite startElection_run.
  destruct (negb (msg_sender env =? owner s)); [done|].
  destruct (electionActive s); [done|].
  destruct (choices s) as [|c0 rest] eqn:Hcs; [done|]. cbn [length negb].
  destruct (negb (0 <? N.of_nat _)); [done|].
  destruct (negb (0 <? _activeWhitelistCount s)); [done|].
  destruct (_ <=? _); [|done]. intros [= <- <-].
  exists c0, rest. split; [done|].
  match goal with |- getWinner ?st = _ => set (s' := st) end.
  assert (Hcs' : choices s' = zeroed (c0 :: rest)) by done.
  destruct (getWinner_of_choices s') as (k & c & hasTie & Hrun & Hc & Hrep);
    [by rewrite Hcs'|].
  assert (Hzero : forall j d, choices s' !! j = Some d -> votes d = 0).
  { intros j d. rewrite Hcs'. unfold zeroed. rewrite list_lookup_fmap.
    destruct ((c0 :: rest) !! j); [|done]. by intros [= <-]. }
  destruct (reports_all_zero _ _ _ _ Hzero Hrep) as (-> & Hv & Htie).
  rewrite Hrun, Hv. rewrite Hcs' in Hc. cbn in Hc. injection Hc as <-. cbn.
  do 5 f_equal. rewrite Hcs' in Htie. unfold zeroed in Htie.
  rewrite length_map in Htie. cbn in Htie.
  destruct rest, hasTie; try done;
    first [ apply Htie; cbn; lia
          | destruct Htie as [Htie _]; specialize (Htie eq_refl); cbn in Htie; lia ].
Qed.

Lemma fresh_election_reports_first_choice_witness :
  getWinner election_open = Done (0, "A", 0, true, true) election_open [].
Proof.
  destruct (fresh_election_reports_first_choice (mkEnv 1 105) configured
              [ElectionStarted 105] election_open) as (c0 & rest & Hcs & Hrun);
    [by vm_compute|].
  rewrite Hrun. vm_compute in Hcs. by injection Hcs as <- <-.
Defined.

(** *** Events *)

(** X25: A committed call emits exactly one event, the one of its entry point
    with its argument or the block time, except [addToWhitelist] of an
    identity that is already whitelisted, which emits nothing and changes
    nothing. A rejected call emits nothing. *)
Theorem one_event_per_commit env c s events s' :
  transact (dispatch env c) s = (Success events, s') ->
  events = [announced env c]
  \/ (exists voter, c = CallAddToWhitelist voter /\
        read_flag (isWhitelisted s) voter = true /\ events = [] /\ s' = s).
Proof.
  unfold transact.
  destruct c as [title|labels|voters|voter|voter| | |i]; cbn [dispatch announced].
  - rewrite setPollTitle_run. repeat case_match; try done; intros [= <- <-];
      simplify_eq; by left.
  - rewrite setChoices_run. repeat case_match; try done; intros [= <- <-];
      simplify_eq; by left.
  - rewrite setWhitelist_run. repeat case_match; try done; intros [= <- <-];
      simplify_eq; by left.
  - rewrite addToWhitelist_run.
    destruct (negb _); [done|]. destruct (electionActive s); [done|].
    destruct (voter =? 0); [done|].
    destruct (read_flag (isWhitelisted s) voter) eqn:Hflag; intros [= <- <-].
    + right. by exists voter.
    + by left.
  - rewrite removeFromWhitelist_run. repeat case_match; try done; intros [= <- <-];
      simplify_eq; by left.
  - rewrite startElection_run. repeat case_match; try done; intros [= <- <-];
      simplify_eq; by left.
  - rewrite endElection_run. repeat case_match; try done; intros [= <- <-];
      simplify_eq; by left.
  - rewrite vote_run. repeat case_match; try done; intros [= <- <-];
      simplify_eq; by left.
Qed.

Lemma one_event_per_commit_witness :
  [WhitelistSet 3] = [announced deployer (CallSetWhitelist [voterX; voterY; voterX])].
Proof.
  destruct (one_event_per_commit deployer (CallSetWhitelist [voterX; voterY; voterX])
              configured [WhitelistSet 3]
              (after deployer (CallSetWhitelist [voterX; voterY; voterX]) configured))
    as [Hone|(voter & Hadd & _)]; [by vm_compute|exact Hone|done].
Defined.

(** ** Properties of the roster revision *)

Module RosterFacts.
Import Roster.

Local Notation "'do!' x ':=' m 'in' k" := (Roster.bind m (fun x => k))
  (at level 10, x name, m at level 100, k at level 200).
Local Notation "m >>> k" := (Roster.bind m (fun _ => k))
  (at level 90, right associativity).

Ltac unfold_roster :=
  unfold Roster.onlyOwner, Roster.onlyWhileActive, Roster.onlyWhenInactive,
    Roster.bind, Roster.get, Roster.modify, Roster.emit, Roster.require,
    Roster.checked_add, Roster.ret, Roster.revert in *.

Lemma roster_vote_run env k i s :
  vote env k i s =
    if negb (electionActive s) then Revert (Error "Election not active") s
    else if negb (k <? N.of_nat (length (voters s))) then Revert (Error "Invalid voter") s
    else if negb (i <? N.of_nat (length (choices s))) then Revert (Error "Invalid choice") s
    else match voters s !! N.to_nat k with
         | None => Revert (Panic 50) s
         | Some v =>
             if voted v then Revert (Error "Already voted") s
             else match choices s !! N.to_nat i with
                  | None => Revert (Panic 50)
                              (set_voters s (<[N.to_nat k := marked env i v]> (voters s)))
                  | Some c =>
                      if votes c + 1 <=? MAX_UINT256
                      then Done tt
                             (set_choices
                                (set_voters s (<[N.to_nat k := marked env i v]> (voters s)))
                                (<[N.to_nat i := mkChoice (label c) (votes c + 1)]> (choices s)))
                             [VoteCast k i]
                      else Revert (Panic 17)
                             (set_voters s (<[N.to_nat k := marked env i v]> (voters s)))
                  end
         end.
Proof.
  unfold vote. unfold_roster. cbn.
  destruct (electionActive s); cbn; [|reflexivity].
  destruct (k <? _); cbn; [|reflexivity].
  destruct (i <? _); cbn; [|reflexivity].
  destruct (voters s !! N.to_nat k) as [v|] eqn:Hv; cbn; [|reflexivity].
  destruct (voted v) eqn:Hvoted; cbn; [reflexivity|].
  assert (Hmark : alter (fun v0 => mkVoter (name v0) (voted v0) (Roster.choiceIndex v0)
                                     (block_timestamp env)) (N.to_nat k)
                    (alter (fun v0 => mkVoter (name v0) (voted v0) i (votedAt v0)) (N.to_nat k)
                       (alter (fun v0 => mkVoter (name v0) true (Roster.choiceIndex v0)
                                           (votedAt v0)) (N.to_nat k) (voters s)))
                  = <[N.to_nat k := marked env i v]> (voters s)).
  { apply list_eq. intros j. destruct (decide (j = N.to_nat k)) as [->|Hne].
    - rewrite !list_lookup_alter_eq, Hv. cbn.
      rewrite list_lookup_insert_eq by (by eapply lookup_lt_Some). reflexivity.
    - rewrite !list_lookup_alter_ne by done. by rewrite list_lookup_insert_ne. }
  rewrite Hmark.
  destruct (choices s !! N.to_nat i) as [c|]; cbn; [|reflexivity].
  destruct (votes c + 1 <=? MAX_UINT256); reflexivity.
Qed.

Lemma roster_endElection_run env s :
  endElection env s =
    if negb (msg_sender env =? owner s) then Revert (Error "Only owner") s
    else if negb (electionActive s) then Revert (Error "Election already ended") s
    else Done tt (set_electionEnd (set_electionActive s false) (block_timestamp env))
           [ElectionEnded (block_timestamp env)].
Proof.
  unfold endElection. unfold_roster. cbn.
  destruct (msg_sender env =? owner s); cbn; [|reflexivity].
  destruct (electionActive s); reflexivity.
Qed.

Lemma roster_startElection_run env s :
  startElection env s =
    if negb (msg_sender env =? owner s) then Revert (Error "Only owner") s
    else if electionActive s then Revert (Error "Election already active") s
    else if negb (0 <? N.of_nat (length (choices s))) then Revert (Error "No choices") s
    else if negb (0 <? N.of_nat (length (voters s))) then Revert (Error "No voters") s
    else Done tt
           (set_electionEnd
              (set_electionStart (set_electionActive s true) (block_timestamp env)) 0)
           [ElectionStarted (block_timestamp env)].
Proof.
  unfold startElection. unfold_roster. cbn.
  destruct (msg_sender env =? owner s); cbn; [|reflexivity].
  destruct (electionActive s); cbn; [reflexivity|].
  destruct (0 <? N.of_nat (length (choices s))); cbn; [|reflexivity].
  destruct (0 <? N.of_nat (length (voters s))); reflexivity.
Qed.

Lemma roster_setPollTitle_run env title s :
  setPollTitle env title s =
    if negb (msg_sender env =? owner s) then Revert (Error "Only owner") s
    else if electionActive s then Revert (Error "Election active") s
    else Done tt (set_pollTitle s title) [PollTitleSet title].
Proof.
  unfold setPollTitle. unfold_roster. cbn.
  destruct (msg_sender env =? owner s); cbn; [|reflexivity].
  destruct (electionActive s); reflexivity.
Qed.

Lemma roster_push_choices_run labels s :
  for_each labels (fun l =>
    require (0 <? bytes_length l) "Empty choice" >>>
    modify (fun s => set_choices s (choices s ++ [mkChoice l 0]))) s =
  if forallb nonblank labels
  then Done tt (set_choices s (choices s ++ fresh_choices labels)) []
  else Revert (Error "Empty choice")
         (set_choices s (choices s ++ fresh_choices (accepted_labels labels))).
Proof.
  revert s. induction labels as [|l rest IH]; intros s; cbn.
  - unfold ret. rewrite app_nil_r. by destruct s.
  - unfold bind at 1. unfold bind at 1. unfold require, nonblank.
    destruct (0 <? bytes_length l) eqn:Hl; cbn.
    + rewrite IH. cbn. fold (nonblank).
      destruct (forallb nonblank rest); cbn; by rewrite <- app_assoc.
    + rewrite app_nil_r. by destruct s.
Qed.

Lemma roster_setChoices_run env labels s :
  setChoices env labels s =
    if negb (msg_sender env =? owner s) then Revert (Error "Only owner") s
    else if electionActive s then Revert (Error "Election active") s
    else if negb (0 <? N.of_nat (length labels)) then Revert (Error "No choices") s
    else if forallb nonblank labels
         then Done tt (set_choices s (fresh_choices labels))
                [ChoicesSet (N.of_nat (length labels))]
         else Revert (Error "Empty choice")
                (set_choices s (fresh_choices (accepted_labels labels))).
Proof.
  unfold setChoices.
  unfold bind at 1. unfold onlyOwner at 1. unfold bind at 1, get at 1, require at 1.
  destruct (msg_sender env =? owner s); cbn; [|reflexivity].
  unfold bind at 1. unfold onlyWhenInactive at 1. unfold bind at 1, get at 1, require at 1.
  destruct (electionActive s); cbn; [reflexivity|].
  unfold bind at 1. unfold require at 1.
  destruct (0 <? N.of_nat (length labels)); cbn; [|reflexivity].
  unfold bind at 1. unfold modify at 1.
  unfold bind at 1. rewrite roster_push_choices_run. cbn.
  destruct (forallb nonblank labels); reflexivity.
Qed.

Lemma roster_push_voters_run names s :
  for_each names (fun n =>
    require (0 <? bytes_length n) "Empty voter" >>>
    modify (fun s => set_voters s (voters s ++ [mkVoter n false 0 0]))) s =
  if forallb nonblank names
  then Done tt (set_voters s (voters s ++ enlisted names)) []
  else Revert (Error "Empty voter")
         (set_voters s (voters s ++ enlisted (accepted_labels names))).
Proof.
  revert s. induction names as [|n rest IH]; intros s; cbn.
  - unfold ret. rewrite app_nil_r. by destruct s.
  - unfold bind at 1. unfold bind at 1. unfold require, nonblank.
    destruct (0 <? bytes_length n) eqn:Hn; cbn.
    + rewrite IH. cbn. fold (nonblank).
      destruct (forallb nonblank rest); cbn; by rewrite <- app_assoc.
    + rewrite app_nil_r. by destruct s.
Qed.

Lemma roster_reset_loop_run (rest pre : list Choice) s :
  choices s = (pre ++ rest)%list ->
  for_each (seq (length pre) (length rest)) (fun i =>
    modify (fun s1 =>
      set_choices s1 (alter (fun c => mkChoice (label c) 0) i (choices s1)))) s =
  Done tt (set_choices s (pre ++ zeroed rest)) [].
Proof.
  revert pre s. induction rest as [|c rest IH]; intros pre s Hcs; cbn.
  - unfold ret. rewrite app_nil_r in Hcs |- *. rewrite <- Hcs. by destruct s.
  - replace (S (length pre)) with (length (pre ++ [mkChoice (label c) 0]))
      by (rewrite length_app; cbn; lia).
    rewrite IH.
    + cbn. by rewrite <- app_assoc.
    + cbn. rewrite Hcs, <- app_assoc. cbn.
      replace (length pre) with (length pre + 0)%nat at 1 by lia.
      by rewrite alter_app_r.
Qed.

Lemma roster_resetVotes_run s :
  _resetVotes s = Done tt (set_choices s (zeroed (choices s))) [].
Proof.
  unfold _resetVotes. unfold bind at 1, get at 1.
  change 0%nat with (length (@nil Choice)).
  by rewrite (roster_reset_loop_run (choices s) [] s).
Qed.

Lemma roster_setVoters_run env names s :
  setVoters env names s =
    if negb (msg_sender env =? owner s) then Revert (Error "Only owner") s
    else if electionActive s then Revert (Error "Election active") s
    else if negb (0 <? N.of_nat (length names)) then Revert (Error "No voters") s
    else if forallb nonblank names
         then Done tt (set_choices (set_voters s (enlisted names)) (zeroed (choices s)))
                [VotersSet (N.of_nat (length names))]
         else Revert (Error "Empty voter")
                (set_voters s (enlisted (accepted_labels names))).
Proof.
  unfold setVoters.
  unfold bind at 1. unfold onlyOwner at 1. unfold bind at 1, get at 1, require at 1.
  destruct (msg_sender env =? owner s); cbn; [|reflexivity].
  unfold bind at 1. unfold onlyWhenInactive at 1. unfold bind at 1, get at 1, require at 1.
  destruct (electionActive s); cbn; [reflexivity|].
  unfold bind at 1. unfold require at 1.
  destruct (0 <? N.of_nat (length names)); cbn; [|reflexivity].
  unfold bind at 1. unfold modify at 1.
  unfold bind at 1. rewrite roster_push_voters_run. cbn.
  destruct (forallb nonblank names); [|reflexivity].
  unfold bind at 1. rewrite roster_resetVotes_run. reflexivity.
Qed.


(** X26: [vote] of the roster revision checks, in this order, that the election
    is open ("Election not active"), that the voter index is in the roster
    ("Invalid voter"), that the choice index is in range ("Invalid
    choice") and that this roster member has not voted ("Already voted");
    a commit marks the member as voted with the choice and the block time
    and adds one to the chosen counter. The caller plays no part: with
    the same block time every sender gets the same outcome. *)
Theorem roster_vote_checks env k i s :
  (electionActive s = false ->
     transact (vote env k i) s = (Reverted (Error "Election not active"), s))
  /\ (electionActive s = true -> N.of_nat (length (voters s)) <= k ->
      transact (vote env k i) s = (Reverted (Error "Invalid voter"), s))
  /\ (electionActive s = true -> k < N.of_nat (length (voters s)) ->
      N.of_nat (length (choices s)) <= i ->
      transact (vote env k i) s = (Reverted (Error "Invalid choice"), s))
  /\ (forall v, electionActive s = true -> i < N.of_nat (length (choices s)) ->
      voters s !! N.to_nat k = Some v -> voted v = true ->
      transact (vote env k i) s = (Reverted (Error "Already voted"), s))
  /\ (forall v c, electionActive s = true ->
      voters s !! N.to_nat k = Some v -> voted v = false ->
      choices s !! N.to_nat i = Some c -> votes c < MAX_UINT256 ->
      exists s', transact (vote env k i) s = (Success [VoteCast k i], s') /\
        voters s' = <[N.to_nat k := mkVoter (name v) true i (block_timestamp env)]> (voters s) /\
        choices s' = <[N.to_nat i := mkChoice (label c) (votes c + 1)]> (choices s) /\
        electionActive s' = true /\ owner s' = owner s /\ pollTitle s' = pollTitle s /\
        electionStart s' = electionStart s /\ electionEnd s' = electionEnd s)
  /\ (forall env', block_timestamp env' = block_timestamp env ->
      vote env' k i s = vote env k i s).
Proof.
  unfold transact. rewrite roster_vote_run. repeat apply conj.
  - intros Hact. by rewrite Hact.
  - intros Hact Hk%N.ltb_ge. by rewrite Hact, Hk.
  - intros Hact Hk%N.ltb_lt Hi%N.ltb_ge. by rewrite Hact, Hk, Hi.
  - intros v Hact Hi%N.ltb_lt Hv Hvoted.
    assert (Hk : (k <? N.of_nat (length (voters s))) = true)
      by (apply N.ltb_lt; apply lookup_lt_Some in Hv; lia).
    by rewrite Hact, Hk, Hi, Hv, Hvoted.
  - intros v c Hact Hv Hvoted Hc Hroom.
    assert (Hk : (k <? N.of_nat (length (voters s))) = true)
      by (apply N.ltb_lt; apply lookup_lt_Some in Hv; lia).
    assert (Hi : (i <? N.of_nat (length (choices s))) = true)
      by (apply N.ltb_lt; apply lookup_lt_Some in Hc; lia).
    assert (Hfit : (votes c + 1 <=? MAX_UINT256) = true) by (apply N.leb_le; lia).
    rewrite Hact, Hk, Hi, Hv, Hvoted, Hc, Hfit. cbn.
    eexists. split; [reflexivity|]. by cbn.
  - intros env' Hts. rewrite roster_vote_run. unfold marked. by rewrite Hts.
Qed.

Lemma roster_vote_checks_witness :
  exists s', transact (vote (mkEnv 77 110) 1 0) poll_open = (Success [VoteCast 1 0], s') /\
    voters s' = [mkVoter "Ann" false 0 0; mkVoter "Bob" true 0 110; mkVoter "Cy" false 0 0] /\
    choices s' = [mkChoice "A" 1; mkChoice "B" 0].
Proof.
  destruct (roster_vote_checks (mkEnv 77 110) 1 0 poll_open) as (_ & _ & _ & _ & Hcommit & _).
  destruct (Hcommit (mkVoter "Bob" false 0 0) (mkChoice "A" 0))
    as (s' & Hrun & Hvoters & Hchoices & _); [by vm_compute ..|].
  exists s'. split; [exact Hrun|]. rewrite Hvoters, Hchoices. by vm_compute.
Defined.

Lemma roster_voted_stays env c s k :
  (forall names, c <> CallSetVoters names) ->
  (exists v, voters s !! k = Some v /\ voted v = true) ->
  exists v, voters (after env c s) !! k = Some v /\ voted v = true.
Proof.
  intros Hc (v & Hv & Hvoted). unfold after, transact.
  destruct c as [title|labels|names| | |k' i]; cbn [dispatch].
  - rewrite roster_setPollTitle_run. repeat case_match; simplify_eq; by exists v.
  - rewrite roster_setChoices_run. repeat case_match; simplify_eq; by exists v.
  - by destruct (Hc names).
  - rewrite roster_startElection_run. repeat case_match; simplify_eq; by exists v.
  - rewrite roster_endElection_run. repeat case_match; simplify_eq; by exists v.
  - rewrite roster_vote_run. repeat case_match; simplify_eq; try by exists v.
    cbn. destruct (decide (k = N.to_nat k')) as [->|Hne]; [congruence|].
    exists v. by rewrite list_lookup_insert_ne.
Qed.

(** X27: A roster member votes once per roster, not once per election: after
    a committed vote for a member, no history of calls without a
    [setVoters], elections ended and started again included, lets another
    vote for that member commit. *)
Theorem roster_member_votes_once env k i s events s1 calls env' j :
  transact (vote env k i) s = (Success events, s1) ->
  same_roster calls ->
  exists reason,
    transact (vote env' k j) (replay calls s1) = (Reverted (Error reason), replay calls s1).
Proof.
  intros Hvote Hsame.
  assert (Hvoted : exists v, voters s1 !! N.to_nat k = Some v /\ voted v = true).
  { revert Hvote. unfold transact. rewrite roster_vote_run.
    repeat case_match; try done. intros [= <- <-]. simplify_eq. cbn.
    match goal with H : voters s !! _ = Some ?v |- _ => exists (marked env i v) end.
    split; [|reflexivity].
    apply list_lookup_insert_eq. by eapply lookup_lt_Some. }
  clear Hvote. revert s1 Hvoted.
  induction calls as [|[caller c] rest IH]; intros s1 Hvoted; cbn [replay].
  - destruct Hvoted as (v & Hv & Hflag). unfold transact. rewrite roster_vote_run, Hv, Hflag.
    destruct (negb (electionActive s1)); [by eexists|].
    destruct (negb (k <? _)); [by eexists|].
    destruct (negb (j <? _)); by eexists.
  - apply Forall_cons in Hsame as [Hc Hrest]. apply IH; [done|].
    by apply roster_voted_stays.
Qed.

Lemma roster_member_votes_once_witness :
  exists reason,
    transact (vote (mkEnv 78 400) 1 1)
      (replay [(mkEnv 1 200, CallEndElection); (mkEnv 1 300, CallStartElection)]
         (after (mkEnv 77 110) (CallVote 1 0) poll_open))
    = (Reverted (Error reason),
       replay [(mkEnv 1 200, CallEndElection); (mkEnv 1 300, CallStartElection)]
         (after (mkEnv 77 110) (CallVote 1 0) poll_open)).
Proof.
  apply (roster_member_votes_once (mkEnv 77 110) 1 0 poll_open [VoteCast 1 0]
           (after (mkEnv 77 110) (CallVote 1 0) poll_open)).
  - by vm_compute.
  - repeat (apply List.Forall_cons; [done|]). apply List.Forall_nil.
Defined.

(** X28: Ending an election and starting the next one resets nothing in the
    roster revision: the counters and the voted flags are carried over,
    so [getWinner] right after the restart still returns the standings of
    the election before. *)
Theorem roster_restart_resets_nothing env1 env2 s ev1 s1 ev2 s2 :
  transact (endElection env1) s = (Success ev1, s1) ->
  transact (startElection env2) s1 = (Success ev2, s2) ->
  choices s2 = choices s /\ voters s2 = voters s /\
  forall r, getWinner s = Done r s [] -> getWinner s2 = Done r s2 [].
Proof.
  unfold transact. rewrite roster_endElection_run.
  destruct (negb (msg_sender env1 =? owner s)); [done|].
  destruct (negb (electionActive s)); [done|]. intros [= <- <-].
  rewrite roster_startElection_run.
  destruct (negb (msg_sender env2 =? _)); [done|].
  destruct (electionActive _); [done|].
  destruct (negb (0 <? N.of_nat (length (choices _)))); [done|].
  destruct (negb (0 <? N.of_nat (length (voters _)))); [done|].
  intros [= <- <-]. cbn. split; [done|]. split; [done|].
  intros r. unfold getWinner. unfold_roster. cbn.
  destruct (negb (found _)); [by intros [= <-]|].
  destruct (choices s !! _); [by intros [= <-]|done].
Qed.

Lemma roster_restart_resets_nothing_witness :
  let s := after (mkEnv 77 110) (CallVote 1 0) poll_open in
  let s2 := replay [(mkEnv 1 200, CallEndElection); (mkEnv 1 300, CallStartElection)] s in
  choices s2 = [mkChoice "A" 1; mkChoice "B" 0] /\
  getWinner s2 = Done (0, "A", 1, false, true) s2 [].
Proof.
  cbn zeta.
  destruct (roster_restart_resets_nothing (mkEnv 1 200) (mkEnv 1 300)
              (after (mkEnv 77 110) (CallVote 1 0) poll_open)
              [ElectionEnded 200]
              (after (mkEnv 1 200) CallEndElection
                 (after (mkEnv 77 110) (CallVote 1 0) poll_open))
              [ElectionStarted 300]
              (replay [(mkEnv 1 200, CallEndElection); (mkEnv 1 300, CallStartElection)]
                 (after (mkEnv 77 110) (CallVote 1 0) poll_open)))
    as (Hcs & _ & Hwin); [by vm_compute ..|].
  split; [rewrite Hcs; by vm_compute|]. apply Hwin. by vm_compute.
Defined.

(** X29: For the owner and a closed election, [setVoters] rejects the empty
    list with "No voters" and a list holding a blank name with "Empty
    voter"; a commit replaces the roster by the names in order, nobody
    having voted, and sets every counter to zero with its label kept. *)
Theorem roster_setVoters_resets env names s :
  msg_sender env = owner s -> electionActive s = false ->
  (names = [] ->
     transact (setVoters env names) s = (Reverted (Error "No voters"), s))
  /\ (names <> [] -> "" ∈ names ->
      transact (setVoters env names) s = (Reverted (Error "Empty voter"), s))
  /\ (names <> [] -> "" ∉ names ->
      exists s', transact (setVoters env names) s
                   = (Success [VotersSet (N.of_nat (length names))], s') /\
        voters s' = map (fun n => mkVoter n false 0 0) names /\
        choices s' = map (fun c => mkChoice (label c) 0) (choices s)).
Proof.
  intros Hown%N.eqb_eq Hact. unfold transact.
  rewrite roster_setVoters_run, Hown, Hact. cbn [negb]. repeat apply conj.
  - by intros ->.
  - intros Hne Hblank%blank_label_rejected. rewrite Hblank. by destruct names.
  - intros Hne Hnoblank.
    assert (Hall : forallb nonblank names = true).
    { apply forallb_forall. intros n Hn%list_elem_of_In. destruct n; [done|]. reflexivity. }
    rewrite Hall. destruct names as [|n0 rest]; [done|]. cbn [length negb].
    eexists. split; [reflexivity|]. by cbn.
Qed.

Lemma roster_setVoters_resets_witness :
  let s := after (mkEnv 1 200) CallEndElection
             (after (mkEnv 77 110) (CallVote 1 0) poll_open) in
  exists s', transact (setVoters deployer ["Dee"]) s = (Success [VotersSet 1], s') /\
    voters s' = [mkVoter "Dee" false 0 0] /\
    choices s' = [mkChoice "A" 0; mkChoice "B" 0].
Proof.
  cbn zeta.
  destruct (roster_setVoters_resets deployer ["Dee"]
              (after (mkEnv 1 200) CallEndElection
                 (after (mkEnv 77 110) (CallVote 1 0) poll_open)))
    as (_ & _ & Hok); [by vm_compute ..|].
  destruct Hok as (s' & Hrun & Hvoters & Hchoices); [done| |].
  - intros [Hin|Hin%elem_of_nil]%elem_of_cons; done.
  - exists s'. split; [exact Hrun|]. rewrite Hvoters, Hchoices. by vm_compute.
Defined.

End RosterFacts.
